(** * pyledstrip-simulator: the browser front end [www/simulator.js]

    A shallow embedding of the two classes that carry the logic of the
    page, [GifRecorder] and [StripRenderer], and the properties of the
    capture / export pipeline and of the rendering pipeline.

    Modelling conventions.
    - A JavaScript number is a value of [JsNum.number]: a rational (the
      value of a finite binary64 number), or one of [+Infinity],
      [-Infinity], [NaN].  Sums, products and quotients are the exact
      result rounded to binary64, to nearest with ties to even, with
      overflow to an infinity and gradual underflow ([JsNum.rnd]).  The
      sign of zero is not modelled (the only zero divisor the program
      can produce is [y - y], which is [+0]).  The remap of a colour
      channel is computed exactly; on every byte this is what binary64
      gives.
    - A thrown [TypeError] is an explicit result that carries the state
      reached when the exception left the method.
    - The DOM is reduced to the properties the script reads and writes.
      A 2D context is the list of the drawing operations it received. *)

From Stdlib Require Import ZArith QArith Qround Qpower List String Ascii Bool.
From Stdlib Require Import Lia Lqa.
From Stdlib Require Import SpecFloat.
From Stdlib Require Import DecimalString.
Import ListNotations.

Local Open Scope string_scope.
Local Open Scope list_scope.
Local Open Scope Z_scope.

(** ** JavaScript numbers *)

Module JsNum.

Inductive number : Type :=
| Fin (q : Q)
| PInf
| NInf
| NaN.

(** Two model values denote the same JavaScript value. *)
Definition same (a b : number) : Prop :=
  match a, b with
  | Fin p, Fin q => (p == q)%Q
  | PInf, PInf => True
  | NInf, NInf => True
  | NaN, NaN => True
  | _, _ => False
  end.

Definition is_finite (a : number) : bool :=
  match a with Fin _ => true | _ => false end.

Definition of_Z (z : Z) : number := Fin (inject_Z z).

(** [a < b] on rationals, as a boolean. *)
Definition Qltb (a b : Q) : bool :=
  match (a ?= b)%Q with Lt => true | _ => false end.

(** The infinity with the sign of [q]; [NaN] when [q] is zero. *)
Definition signed_inf (q : Q) : number :=
  match (q ?= 0)%Q with
  | Gt => PInf
  | Lt => NInf
  | Eq => NaN
  end.

(** [2^e] for an integer [e] of either sign. *)
Definition two_pow (e : Z) : Q :=
  match e with
  | Z0 => 1%Q
  | Zpos p => inject_Z (Z.pow_pos 2 p)
  | Zneg p => (1 # Pos.pow 2 p)%Q
  end.

(** For [a > 0], the integer [k] with [2^k <= a < 2^(k+1)]. *)
Definition ilog2 (a : Q) : Z :=
  if Qle_bool 1 a then Z.log2 (Qfloor a)
  else - Z.log2_up (Qceiling (/ a)).

(** The nearest integer, a tie going to the even one. *)
Definition nearest_even (x : Q) : Z :=
  let f := Qfloor x in
  match (x - inject_Z f ?= 1 # 2)%Q with
  | Lt => f
  | Gt => f + 1
  | Eq => if Z.even f then f else f + 1
  end.

(** Binary64 rounding of a positive rational: 53 significant bits, the
    exponent of the last bit no less than -1074; [None] on overflow. *)
Definition rnd_pos (a : Q) : option Q :=
  let e := Z.max (ilog2 a - 52) (-1074) in
  let m := nearest_even (a / two_pow e) in
  let d := (inject_Z m * two_pow e)%Q in
  if Qle_bool (two_pow 1024) d then None else Some d.

(** The binary64 number nearest to the rational [q]. *)
Definition rnd (q : Q) : number :=
  match (q ?= 0)%Q with
  | Eq => Fin 0
  | Gt => match rnd_pos q with Some d => Fin d | None => PInf end
  | Lt => match rnd_pos (- q) with Some d => Fin (- d) | None => NInf end
  end.

Definition neg (a : number) : number :=
  match a with
  | Fin q => Fin (- q)%Q
  | PInf => NInf
  | NInf => PInf
  | NaN => NaN
  end.

Definition add (a b : number) : number :=
  match a, b with
  | NaN, _ | _, NaN => NaN
  | Fin p, Fin q => rnd (p + q)
  | PInf, NInf | NInf, PInf => NaN
  | PInf, _ | _, PInf => PInf
  | NInf, _ | _, NInf => NInf
  end.

Definition sub (a b : number) : number := add a (neg b).

Definition mul (a b : number) : number :=
  match a, b with
  | NaN, _ | _, NaN => NaN
  | Fin p, Fin q => rnd (p * q)
  | Fin p, PInf | PInf, Fin p => signed_inf p
  | Fin p, NInf | NInf, Fin p => signed_inf (- p)%Q
  | PInf, PInf | NInf, NInf => PInf
  | PInf, NInf | NInf, PInf => NaN
  end.

(** Division; a zero divisor is [+0]. *)
Definition div (a b : number) : number :=
  match a, b with
  | NaN, _ | _, NaN => NaN
  | Fin p, Fin q =>
      match (q ?= 0)%Q with
      | Eq => signed_inf p
      | _ => rnd (p / q)
      end
  | Fin _, PInf | Fin _, NInf => Fin 0%Q
  | PInf, Fin q => if Qltb q 0 then NInf else PInf
  | NInf, Fin q => if Qltb q 0 then PInf else NInf
  | _, _ => NaN
  end.

(** [a < b] as JavaScript compares numbers. *)
Definition ltb (a b : number) : bool :=
  match a, b with
  | NaN, _ | _, NaN => false
  | Fin p, Fin q => Qltb p q
  | Fin _, PInf => true
  | Fin _, NInf => false
  | PInf, _ => false
  | NInf, NInf => false
  | NInf, _ => true
  end.

(** [b < a] is false: [a <= b], or one of the two is [NaN]. *)
Definition below (a b : number) : Prop :=
  match a, b with
  | NaN, _ | _, NaN => True
  | NInf, _ | _, PInf => True
  | Fin p, Fin q => (p <= q)%Q
  | _, _ => False
  end.

(** Zero, a positive number or [NaN]. *)
Definition not_negative (s : number) : Prop :=
  match s with
  | Fin q => (0 <= q)%Q
  | PInf | NaN => True
  | NInf => False
  end.

(** [Math.round] on a rational: the nearest integer, a half going up. *)
Definition Qround_half_up (q : Q) : Z := Qfloor (q + (1 # 2))%Q.

Definition round (a : number) : number :=
  match a with
  | Fin q => of_Z (Qround_half_up q)
  | _ => a
  end.

(** The text of an integer-valued number, as [String(n)] gives it. *)
Definition string_of_Z (z : Z) : string :=
  NilZero.string_of_int (Z.to_int z).

(** The text of a result of [Math.round]: an integer below [10^21], an
    infinity or [NaN]. *)
Definition to_text (a : number) : string :=
  match a with
  | Fin q => string_of_Z (Qfloor q)
  | PInf => "Infinity"
  | NInf => "-Infinity"
  | NaN => "NaN"
  end.

(** The value of a binary64 number of the Standard Library's
    specification of IEEE 754. *)
Definition of_spec (f : spec_float) : number :=
  match f with
  | S754_zero _ => Fin 0
  | S754_infinity false => PInf
  | S754_infinity true => NInf
  | S754_nan => NaN
  | S754_finite s m e =>
      Fin ((if s then - inject_Z (Zpos m) else inject_Z (Zpos m)) * two_pow e)
  end.

Definition same_bool (a b : number) : bool :=
  match a, b with
  | Fin p, Fin q => Qeq_bool p q
  | PInf, PInf | NInf, NInf | NaN, NaN => true
  | _, _ => false
  end.

(** [q] is the value of a binary64 number. *)
Definition is_double (q : Q) : bool := same_bool (rnd q) (Fin q).

(** Binary64 numbers to try the operations on: 580, 120, 51, 135, 100,
    the doubles nearest to 0.045, 0.575 and 1e-310, the largest finite
    double, the smallest positive one, and -(2^53 + 2). *)
Definition sample_doubles : list spec_float :=
  [ S754_finite false 5101733952880640 (-43);
    S754_finite false 8444249301319680 (-46);
    S754_finite false 7177611906121728 (-47);
    S754_finite false 4749890231992320 (-45);
    S754_finite false 7036874417766400 (-46);
    S754_finite false 6485183463413514 (-57);
    S754_finite false 5179139571476070 (-53);
    S754_finite false 20240225330731 (-1074);
    S754_finite false 9007199254740991 971;
    S754_finite false 1 (-1074);
    S754_finite true 4503599627370497 1 ].

Definition agrees_on (x y : spec_float) : bool :=
  match of_spec x, of_spec y with
  | Fin p, Fin q =>
      same_bool (add (Fin p) (Fin q)) (of_spec (SFadd 53 1024 x y))
      && same_bool (mul (Fin p) (Fin q)) (of_spec (SFmul 53 1024 x y))
      && same_bool (div (Fin p) (Fin q)) (of_spec (SFdiv 53 1024 x y))
      && Bool.eqb (ltb (Fin p) (Fin q)) (SFltb x y)
  | _, _ => false
  end.

End JsNum.

Import JsNum.

(** ** Configuration constants (lines 1-4) *)

Definition maxSize : Z := 600.
Definition offPixelBrightness : Z := 30.
Definition gifWorkers : Z := 4.
Definition gifQuality : Z := 0.

(** ** Canvases *)

Module Dom.

Inductive CompositeOp : Type := SourceOver | Lighten | SourceIn.

(** One operation on a 2D context, with the compositing mode (and, for
    a fill, the fill style) in force when it was issued.  [DrawSprite]
    is [drawImage] of the sprite image, [DrawCanvas] is [drawImage] of
    another canvas, recorded with what that canvas showed. *)
#[local] Unset Elimination Schemes.
Inductive DrawOp : Type :=
| FillRect (op : CompositeOp) (style : string) (x y w h : number)
| DrawSprite (op : CompositeOp) (x y : number)
| DrawCanvas (op : CompositeOp) (src : list DrawOp) (x y : number).
#[local] Set Elimination Schemes.

(** A canvas element with the operations that made its bitmap, oldest
    first.  [width] and [height] hold the number the script assigned;
    the conversion the DOM applies to it is not modelled. *)
Record Canvas : Type := mkCanvas {
  width : number;
  height : number;
  content : list DrawOp
}.

(** The 2D context of a canvas. *)
Record Context : Type := mkContext {
  target : Canvas;
  globalCompositeOperation : CompositeOp;
  fillStyle : string
}.

(** [document.createElement('canvas')]: the default 300 x 150 bitmap. *)
Definition createCanvas : Canvas :=
  {| width := of_Z 300; height := of_Z 150; content := [] |}.

Definition getContext (c : Canvas) : Context :=
  {| target := c; globalCompositeOperation := SourceOver;
     fillStyle := "#000000" |}.

(** Assigning a dimension resets the bitmap and the context state. *)
Definition set_width (c : Context) (w : number) : Context :=
  getContext {| width := w; height := height (target c); content := [] |}.

Definition set_height (c : Context) (h : number) : Context :=
  getContext {| width := width (target c); height := h; content := [] |}.

Definition set_globalCompositeOperation (c : Context) (op : CompositeOp)
  : Context :=
  {| target := target c; globalCompositeOperation := op;
     fillStyle := fillStyle c |}.

Definition set_fillStyle (c : Context) (s : string) : Context :=
  {| target := target c;
     globalCompositeOperation := globalCompositeOperation c;
     fillStyle := s |}.

Definition issue (c : Context) (d : DrawOp) : Context :=
  {| target := {| width := width (target c); height := height (target c);
                  content := content (target c) ++ [d] |};
     globalCompositeOperation := globalCompositeOperation c;
     fillStyle := fillStyle c |}.

Definition fillRect (c : Context) (x y w h : number) : Context :=
  issue c (FillRect (globalCompositeOperation c) (fillStyle c) x y w h).

Definition drawSprite (c : Context) (x y : number) : Context :=
  issue c (DrawSprite (globalCompositeOperation c) x y).

Definition drawCanvas (c : Context) (src : Canvas) (x y : number) : Context :=
  issue c (DrawCanvas (globalCompositeOperation c) (content src) x y).

(** [clearRect] over the whole bitmap: nothing drawn before remains. *)
Definition clearAll (c : Context) : Context :=
  {| target := {| width := width (target c); height := height (target c);
                  content := [] |};
     globalCompositeOperation := globalCompositeOperation c;
     fillStyle := fillStyle c |}.

End Dom.

(** ** GifRecorder (lines 6-103) *)

Module GifRecorder.
Import Dom.

Record Frame : Type := mkFrame {
  timestamp : Z;
  canvas : Canvas
}.

(** One [gif.addFrame(canvas, {delay, copy})] call. *)
Record GifFrame : Type := mkGifFrame {
  image : Canvas;
  delay : Z;
  copy : bool
}.

(** A gif.js encoder: its options, the frames handed to it and whether
    [render()] was called.  The four handlers registered with [on] are
    the function [handle] below. *)
Record GIF : Type := mkGIF {
  workers : Z;
  quality : Z;
  gif_frames : list GifFrame;
  rendering : bool
}.

Definition Blob : Type := list GifFrame.

Record Img : Type := mkImg {
  src : Blob;
  classList : list string
}.

(** The recorder object with the two elements it holds. *)
Record Recorder : Type := mkRecorder {
  btnRecord_innerText : string;
  btnRecord_disabled : bool;
  progressText : string;
  frames : list Frame;
  active : bool
}.

(** The rest of the page: the encoders created so far, newest last,
    and the children of the [results] element. *)
Record Page : Type := mkPage {
  encoders : list GIF;
  results : list Img
}.

Definition World : Type := (Recorder * Page)%type.

Inductive GifEvent : Type :=
| EvStart
| EvProgress (progress : Q)
| EvAbort
| EvFinished (blob : Blob).

(** constructor (lines 7-23); the texts of the two elements come from
    the document. *)
Definition new (btnText progress : string) (disabled : bool) : Recorder :=
  {| btnRecord_innerText := btnText;
     btnRecord_disabled := disabled;
     progressText := progress;
     frames := [];
     active := false |}.

Definition set_progressText (r : Recorder) (s : string) : Recorder :=
  {| btnRecord_innerText := btnRecord_innerText r;
     btnRecord_disabled := btnRecord_disabled r;
     progressText := s;
     frames := frames r;
     active := active r |}.

Definition set_btnText (r : Recorder) (s : string) : Recorder :=
  {| btnRecord_innerText := s;
     btnRecord_disabled := btnRecord_disabled r;
     progressText := progressText r;
     frames := frames r;
     active := active r |}.

Definition set_disabled (r : Recorder) (b : bool) : Recorder :=
  {| btnRecord_innerText := btnRecord_innerText r;
     btnRecord_disabled := b;
     progressText := progressText r;
     frames := frames r;
     active := active r |}.

Definition set_frames (r : Recorder) (fs : list Frame) : Recorder :=
  {| btnRecord_innerText := btnRecord_innerText r;
     btnRecord_disabled := btnRecord_disabled r;
     progressText := progressText r;
     frames := fs;
     active := active r |}.

Definition set_active (r : Recorder) (b : bool) : Recorder :=
  {| btnRecord_innerText := btnRecord_innerText r;
     btnRecord_disabled := btnRecord_disabled r;
     progressText := progressText r;
     frames := frames r;
     active := b |}.

(** addFrame (lines 25-42); [now] is [new Date().getTime()]. *)
Definition addFrame (now : Z) (cv : Canvas) (r : Recorder) : Recorder :=
  if negb (active r) then r
  else
    let timestamp := now in
    let context := getContext createCanvas in
    let context := set_width context (width cv) in
    let context := set_height context (height cv) in
    let context := drawCanvas context cv (of_Z 0) (of_Z 0) in
    let newCanvas := target context in
    set_frames r
      (frames r ++ [ {| timestamp := timestamp; canvas := newCanvas |} ]).

(** start (lines 44-48) *)
Definition start (r : Recorder) : Recorder :=
  let r := set_active r true in
  let r := set_progressText r "Recording" in
  set_btnText r "Stop".

(** clear (lines 57-59) *)
Definition clear (r : Recorder) : Recorder := set_frames r [].

Definition gif_new (w q : Z) : GIF :=
  {| workers := w; quality := q; gif_frames := []; rendering := false |}.

Definition gif_addFrame (g : GIF) (cv : Canvas) (d : Z) (cp : bool) : GIF :=
  {| workers := workers g; quality := quality g;
     gif_frames := gif_frames g ++ [ {| image := cv; delay := d; copy := cp |} ];
     rendering := rendering g |}.

Definition gif_render (g : GIF) : GIF :=
  {| workers := workers g; quality := quality g;
     gif_frames := gif_frames g; rendering := true |}.

(** The loop of lines 93-99, from index [i], with [n] iterations left
    and the current value of the variable [delay].  The loop is entered
    with [n = frames.length] and [i = 0], so both look-ups succeed. *)
Fixpoint addFrames (fs : list Frame) (n i : nat) (delay : Z) (gif : GIF) : GIF :=
  match n with
  | O => gif
  | S n' =>
      match nth_error fs i with
      | None => gif
      | Some f =>
          let delay :=
            if (i + 1 <? List.length fs)%nat then
              match nth_error fs (i + 1) with
              | Some f1 => timestamp f1 - timestamp f
              | None => delay
              end
            else delay in
          addFrames fs n' (S i) delay (gif_addFrame gif (canvas f) delay true)
      end
  end.

(** generateGif (lines 61-102) *)
Definition generateGif (w : World) : World :=
  let '(r, p) := w in
  if (List.length (frames r) =? 0)%nat then
    let r := set_progressText r "No frames" in
    let r := set_disabled r false in
    (r, p)
  else
    let gif := gif_new gifWorkers gifQuality in
    let gif := addFrames (frames r) (List.length (frames r)) 0 1000 gif in
    let gif := gif_render gif in
    (r, {| encoders := encoders p ++ [gif]; results := results p |}).

(** stop (lines 50-55) *)
Definition stop (w : World) : World :=
  let '(r, p) := w in
  let r := set_disabled r true in
  let r := set_active r false in
  let r := set_btnText r "Record" in
  generateGif (r, p).

(** btnRecord.onclick (lines 11-17) *)
Definition onclick (w : World) : World :=
  if active (fst w) then stop w else (start (fst w), snd w).

(** The handlers of lines 73-91, by the event the encoder reports. *)
Definition handle (e : GifEvent) (w : World) : World :=
  let '(r, p) := w in
  match e with
  | EvStart => (set_progressText r "Starting", p)
  | EvProgress progress =>
      (set_progressText r
         (to_text (round (mul (of_Z 100) (Fin progress))) ++ "%")%string, p)
  | EvAbort =>
      let r := set_progressText r "Aborted" in
      let r := set_disabled r false in
      (r, p)
  | EvFinished blob =>
      let r := set_progressText r "Finished" in
      let img := {| src := blob; classList := ["gif"%string] |} in
      let p := {| encoders := encoders p; results := results p ++ [img] |} in
      let r := clear r in
      let r := set_disabled r false in
      (r, p)
  end.

(** The delays the newest encoder was given, in frame order. *)
Definition requested_delays (w : World) : list Z :=
  match rev (encoders (snd w)) with
  | g :: _ => map delay (gif_frames g)
  | [] => []
  end.

(** The capture session as the specification names its states. *)
Inductive Session : Type := Idle | Armed | Encoding.

Definition session (r : Recorder) : Session :=
  if active r then Armed
  else if btnRecord_disabled r then Encoding
  else Idle.

(** The delays of lines 93-99 read off a list of timestamps: [d] is the
    value of the variable [delay] on entry. *)
Fixpoint delays_from (d : Z) (ts : list Z) : list Z :=
  match ts with
  | [] => []
  | t :: ts' =>
      match ts' with
      | [] => [d]
      | t' :: _ => (t' - t) :: delays_from (t' - t) ts'
      end
  end.

(** A recording of the frames [fs], stopped, seen from the page [p]. *)
Definition recorded (fs : list Frame) : Recorder :=
  {| btnRecord_innerText := "Record";
     btnRecord_disabled := true;
     progressText := "Recording";
     frames := fs;
     active := false |}.

Definition blank_page : Page := {| encoders := []; results := [] |}.

Definition frames_at (cv : Canvas) (ts : list Z) : list Frame :=
  List.map (fun t => {| timestamp := t; canvas := cv |}) ts.

(** Two sessions on one page: a frame is captured at time 0 and the
    export is aborted; then a second frame is captured at time 50. *)
Definition fresh : Recorder := new "Record" "" false.

Definition first_session : World :=
  stop (addFrame 0 createCanvas (start fresh), blank_page).

Definition aborted_session : World := handle EvAbort first_session.

Definition second_session : World :=
  stop (addFrame 50 createCanvas (start (fst aborted_session)),
        snd aborted_session).

End GifRecorder.

(** ** StripRenderer (lines 105-229) *)

Module StripRenderer.
Import Dom.

(** A layout entry [[x, y]] and a colour [[r, g, b]], as parsed from
    the JSON the server sends. *)
Definition Point : Type := (Q * Q)%type.
Definition Pixel : Type := (Q * Q * Q)%type.

(** What was [undefined] when a property of it was read. *)
Inductive Undefined : Type :=
| UndefinedPixel (i : nat)
| UndefinedMapEntry (i : nat)
| UndefinedTintCtx.

(** How a method ends: normally, or by a [TypeError] that leaves it
    with the state reached so far. *)
Inductive Completion (A : Type) : Type :=
| Normal (a : A)
| TypeError (u : Undefined) (a : A).
Arguments Normal {A} a.
Arguments TypeError {A} u a.

Section Observers.

(** The state the render callbacks act on. *)
Variable W : Type.

Record Renderer : Type := mkRenderer {
  ctx : Context;
  image_width : Z;
  image_height : Z;
  tintCtx : option Context;
  renderCallbacks : list (Canvas -> W -> W);
  pixels : option (list Pixel);
  map : option (list Point);
  scaling : number;
  xOffset : number;
  yOffset : number
}.

(** constructor (lines 106-128); the image has not loaded yet. *)
Definition new (animation : Canvas) : Renderer :=
  {| ctx := getContext animation;
     image_width := 0;
     image_height := 0;
     tintCtx := None;
     renderCallbacks := [];
     pixels := None;
     map := None;
     scaling := of_Z 1;
     xOffset := of_Z 0;
     yOffset := of_Z 0 |}.

Definition set_ctx (r : Renderer) (c : Context) : Renderer :=
  {| ctx := c;
     image_width := image_width r;
     image_height := image_height r;
     tintCtx := tintCtx r;
     renderCallbacks := renderCallbacks r;
     pixels := pixels r;
     map := map r;
     scaling := scaling r;
     xOffset := xOffset r;
     yOffset := yOffset r |}.

Definition set_tintCtx (r : Renderer) (t : option Context) : Renderer :=
  {| ctx := ctx r;
     image_width := image_width r;
     image_height := image_height r;
     tintCtx := t;
     renderCallbacks := renderCallbacks r;
     pixels := pixels r;
     map := map r;
     scaling := scaling r;
     xOffset := xOffset r;
     yOffset := yOffset r |}.

Definition set_image (r : Renderer) (w h : Z) : Renderer :=
  {| ctx := ctx r;
     image_width := w;
     image_height := h;
     tintCtx := tintCtx r;
     renderCallbacks := renderCallbacks r;
     pixels := pixels r;
     map := map r;
     scaling := scaling r;
     xOffset := xOffset r;
     yOffset := yOffset r |}.

Definition set_scaling (r : Renderer) (s : number) : Renderer :=
  {| ctx := ctx r;
     image_width := image_width r;
     image_height := image_height r;
     tintCtx := tintCtx r;
     renderCallbacks := renderCallbacks r;
     pixels := pixels r;
     map := map r;
     scaling := s;
     xOffset := xOffset r;
     yOffset := yOffset r |}.

Definition set_offsets (r : Renderer) (x y : number) : Renderer :=
  {| ctx := ctx r;
     image_width := image_width r;
     image_height := image_height r;
     tintCtx := tintCtx r;
     renderCallbacks := renderCallbacks r;
     pixels := pixels r;
     map := map r;
     scaling := scaling r;
     xOffset := x;
     yOffset := y |}.

(** The bounding box [(xMin, xMax, yMin, yMax)]. *)
Definition Box : Type := (Q * Q * Q * Q)%type.

(** The body of the loop of lines 139-145. *)
Definition bbox_step (v : Point) (b : Box) : Box :=
  let '(xMin, xMax, yMin, yMax) := b in
  let xMin := if Qltb (fst v) xMin then fst v else xMin in
  let xMax := if Qltb xMax (fst v) then fst v else xMax in
  let yMin := if Qltb (snd v) yMin then snd v else yMin in
  let yMax := if Qltb yMax (snd v) then snd v else yMax in
  (xMin, xMax, yMin, yMax).

(** The loop of lines 139-145 over the entries from index 1 on. *)
Fixpoint bbox_loop (rest : list Point) (b : Box) : Box :=
  match rest with
  | [] => b
  | v :: rest' => bbox_loop rest' (bbox_step v b)
  end.

(** Lines 135-145 for a layout whose first entry is [v0]. *)
Definition bbox (v0 : Point) (rest : list Point) : Box :=
  let xMin := fst v0 in
  let xMax := xMin in
  let yMin := snd v0 in
  let yMax := yMin in
  bbox_loop rest (xMin, xMax, yMin, yMax).

(** resizeCanvas (lines 130-162) *)
Definition resizeCanvas (r : Renderer) : Renderer :=
  match map r, tintCtx r with
  | Some (v0 :: rest), Some _ =>
      let '(xMin, xMax, yMin, yMax) := bbox v0 rest in
      let maxWidth := maxSize - image_width r in
      let maxHeight := maxSize - image_height r in
      let xDiff := sub (Fin xMax) (Fin xMin) in
      let yDiff := sub (Fin yMax) (Fin yMin) in
      let r :=
        if ltb yDiff xDiff then
          let r := set_scaling r (div (of_Z maxWidth) xDiff) in
          let r := set_ctx r (set_width (ctx r) (of_Z maxSize)) in
          set_ctx r
            (set_height (ctx r)
               (add (round (mul yDiff (scaling r)))
                    (of_Z (image_height r))))
        else
          let r := set_scaling r (div (of_Z maxHeight) yDiff) in
          let r :=
            set_ctx r
              (set_width (ctx r)
                 (add (round (mul xDiff (scaling r)))
                      (of_Z (image_width r)))) in
          set_ctx r (set_height (ctx r) (of_Z maxSize)) in
      set_offsets r (neg (Fin xMin)) (neg (Fin yMin))
  | _, _ => r
  end.

(** image.onload (lines 112-119), for an image of [w] x [h] pixels. *)
Definition onload (w h : Z) (r : Renderer) : Renderer :=
  let r := set_image r w h in
  let tintCtx := getContext createCanvas in
  let tintCtx := set_width tintCtx (of_Z (image_width r)) in
  let tintCtx := set_height tintCtx (of_Z (image_height r)) in
  let r := set_tintCtx r (Some tintCtx) in
  resizeCanvas r.

(** Lines 182-184: one channel of the colour made visible. *)
Definition remap (c : Q) : Z :=
  offPixelBrightness
  + Qround_half_up ((255 - inject_Z offPixelBrightness) * c / 255).

(** The same expression with every operation rounded to binary64. *)
Definition remap_binary64 (c : Q) : number :=
  add (of_Z offPixelBrightness)
      (round (div (mul (sub (Fin 255) (of_Z offPixelBrightness)) (Fin c))
                  (Fin 255))).

(** The channel values of a colour of three bytes. *)
Definition bytes : list Z := List.map Z.of_nat (seq 0 256).

(** Line 193: the fill style built from the three channels. *)
Definition rgb (p0 p1 p2 : Z) : string :=
  ("rgb(" ++ string_of_Z p0 ++ ", " ++ string_of_Z p1 ++ ", "
     ++ string_of_Z p2 ++ ")")%string.

(** Lines 187-194: the scratch canvas tinted with the colour [pixel]. *)
Definition tint (r : Renderer) (t : Context) (pixel : Z * Z * Z) : Context :=
  let '(p0, p1, p2) := pixel in
  let t := clearAll t in
  let t := set_globalCompositeOperation t SourceOver in
  let t := drawSprite t (of_Z 0) (of_Z 0) in
  let t := set_globalCompositeOperation t SourceIn in
  let t := set_fillStyle t (rgb p0 p1 p2) in
  fillRect t (of_Z 0) (of_Z 0) (of_Z (image_width r)) (of_Z (image_height r)).

(** Lines 198-199: where the light at [v] is drawn. *)
Definition position (r : Renderer) (v : Point) : number * number :=
  (mul (add (Fin (fst v)) (xOffset r)) (scaling r),
   sub (sub (height (target (ctx r)))
            (mul (add (Fin (snd v)) (yOffset r)) (scaling r)))
       (of_Z (image_height r))).

(** The body of the loop of lines 177-201 at index [i]. *)
Definition render_light (ps : list Pixel) (m : list Point) (i : nat)
  (r : Renderer) : Completion Renderer :=
  match nth_error ps i with
  | None => TypeError (UndefinedPixel i) r
  | Some pixel =>
      let pixel :=
        (remap (fst (fst pixel)), remap (snd (fst pixel)), remap (snd pixel)) in
      match tintCtx r with
      | None => TypeError UndefinedTintCtx r
      | Some t =>
          let t := tint r t pixel in
          let r := set_tintCtx r (Some t) in
          match nth_error m i with
          | None => TypeError (UndefinedMapEntry i) r
          | Some v =>
              let '(x, y) := position r v in
              Normal (set_ctx r (drawCanvas (ctx r) (target t) x y))
          end
      end
  end.

(** The loop of lines 177-201 from index [i] with [n] iterations
    left; it is entered with [n = l] and [i = 0]. *)
Fixpoint render_loop (ps : list Pixel) (m : list Point) (n i : nat)
  (r : Renderer) : Completion Renderer :=
  match n with
  | O => Normal r
  | S n' =>
      match render_light ps m i r with
      | Normal r' => render_loop ps m n' (S i) r'
      | TypeError u r' => TypeError u r'
      end
  end.

(** The loop of lines 203-205. *)
Fixpoint run_callbacks (cbs : list (Canvas -> W -> W)) (cv : Canvas)
  (w : W) : W :=
  match cbs with
  | [] => w
  | cb :: cbs' => run_callbacks cbs' cv (cb cv w)
  end.

(** render (lines 164-206) *)
Definition render (rw : Renderer * W) : Completion (Renderer * W) :=
  let '(r, w) := rw in
  match map r, pixels r with
  | Some m, Some ps =>
      let c := ctx r in
      let c := set_globalCompositeOperation c SourceOver in
      let c := set_fillStyle c "black" in
      let c := fillRect c (of_Z 0) (of_Z 0)
                 (width (target c)) (height (target c)) in
      let c := set_globalCompositeOperation c Lighten in
      let r := set_ctx r c in
      let l := Nat.min (List.length ps) (List.length ps) in
      match render_loop ps m l 0 r with
      | Normal r' =>
          Normal (r', run_callbacks (renderCallbacks r') (target (ctx r')) w)
      | TypeError u r' => TypeError u (r', w)
      end
  | _, _ => Normal (r, w)
  end.

(** addRenderCallback, setPixels, setMap (lines 213-224) *)
Definition addRenderCallback (cb : Canvas -> W -> W) (r : Renderer)
  : Renderer :=
  {| ctx := ctx r;
     image_width := image_width r;
     image_height := image_height r;
     tintCtx := tintCtx r;
     renderCallbacks := renderCallbacks r ++ [cb];
     pixels := pixels r;
     map := map r;
     scaling := scaling r;
     xOffset := xOffset r;
     yOffset := yOffset r |}.

Definition setPixels (ps : option (list Pixel)) (r : Renderer) : Renderer :=
  {| ctx := ctx r;
     image_width := image_width r;
     image_height := image_height r;
     tintCtx := tintCtx r;
     renderCallbacks := renderCallbacks r;
     pixels := ps;
     map := map r;
     scaling := scaling r;
     xOffset := xOffset r;
     yOffset := yOffset r |}.

Definition setMap (m : option (list Point)) (r : Renderer) : Renderer :=
  resizeCanvas
    {| ctx := ctx r;
       image_width := image_width r;
       image_height := image_height r;
       tintCtx := tintCtx r;
       renderCallbacks := renderCallbacks r;
       pixels := pixels r;
       map := m;
       scaling := scaling r;
       xOffset := xOffset r;
       yOffset := yOffset r |}.

End Observers.


(** Renderers for the examples: the sprite has loaded with the given
    size, no callback is registered. *)
Definition loaded (w h : Z) : Renderer unit :=
  onload unit w h (new unit createCanvas).

Definition with_data (m : list Point) (ps : list Pixel) (r : Renderer unit)
  : Renderer unit :=
  setPixels unit (Some ps) (setMap unit (Some m) r).

Definition triangle : list Point := [(0, 0); (10, 0); (0, 10)]%Q.

(** A renderer that holds the layout [m] and a sprite of [w] x [h]
    pixels, before [resizeCanvas] has run. *)
Definition unloaded_with (m : list Point) (w h : Z) : Renderer unit :=
  {| ctx := getContext createCanvas;
     image_width := w;
     image_height := h;
     tintCtx := Some (getContext createCanvas);
     renderCallbacks := [];
     pixels := None;
     map := Some m;
     scaling := of_Z 1;
     xOffset := of_Z 0;
     yOffset := of_Z 0 |}.

(** Every coordinate is the value of a binary64 number, as in a layout
    that [JSON.parse] produced. *)
Definition binary64_layout (m : list Point) : bool :=
  forallb (fun v => is_double (fst v) && is_double (snd v)) m.

Definition black : Pixel := (0, 0, 0)%Q.
Definition white : Pixel := (255, 255, 255)%Q.

Arguments ctx {W} r.
Arguments image_width {W} r.
Arguments image_height {W} r.
Arguments tintCtx {W} r.
Arguments renderCallbacks {W} r.
Arguments pixels {W} r.
Arguments map {W} r.
Arguments scaling {W} r.
Arguments xOffset {W} r.
Arguments yOffset {W} r.
Arguments resizeCanvas {W} r.
Arguments render {W} rw.
Arguments render_loop {W} ps m n i r.
Arguments render_light {W} ps m i r.
Arguments position {W} r v.
Arguments setMap {W} m r.
Arguments setPixels {W} ps r.
Arguments onload {W} w h r.
Arguments addRenderCallback {W} cb r.
Arguments run_callbacks {W} cbs cv w.
Arguments tint {W} r t pixel.
Arguments set_ctx {W} r c.
Arguments set_tintCtx {W} r t.
Arguments set_scaling {W} r s.
Arguments set_offsets {W} r x y.
Arguments set_image {W} r w h.


(** What a completed or interrupted call left behind, and what it
    threw. *)
Definition state_of {A : Type} (c : Completion A) : A :=
  match c with Normal a => a | TypeError _ a => a end.

Definition thrown {A : Type} (c : Completion A) : option Undefined :=
  match c with Normal _ => None | TypeError u _ => Some u end.

(** The scratch canvas after lines 187-194 for the colour [pixel]. *)
Definition tinted {W : Type} (r : Renderer W) (pixel : Pixel) : list DrawOp :=
  [ DrawSprite SourceOver (of_Z 0) (of_Z 0);
    FillRect SourceIn
      (rgb (remap (fst (fst pixel))) (remap (snd (fst pixel)))
           (remap (snd pixel)))
      (of_Z 0) (of_Z 0) (of_Z (image_width r)) (of_Z (image_height r)) ].

(** The operation that composites the light with colour [fst pv] of
    the layout entry [snd pv]. *)
Definition sprite_at {W : Type} (r : Renderer W) (pv : Pixel * Point) : DrawOp :=
  DrawCanvas Lighten (tinted r (fst pv))
    (fst (position r (snd pv))) (snd (position r (snd pv))).

(** The fill of lines 170-172. *)
Definition background {W : Type} (r : Renderer W) : DrawOp :=
  FillRect SourceOver "black" (of_Z 0) (of_Z 0)
    (width (target (ctx r))) (height (target (ctx r))).

(** The fields that drawing leaves alone. *)
Definition same_setup {W : Type} (r r' : Renderer W) : Prop :=
  image_width r' = image_width r
  /\ image_height r' = image_height r
  /\ renderCallbacks r' = renderCallbacks r
  /\ pixels r' = pixels r
  /\ map r' = map r
  /\ scaling r' = scaling r
  /\ xOffset r' = xOffset r
  /\ yOffset r' = yOffset r
  /\ width (target (ctx r')) = width (target (ctx r))
  /\ height (target (ctx r')) = height (target (ctx r)).

End StripRenderer.

(** ** Recording sessions: the recorder driven by the page *)

Module Recording.
Import Dom GifRecorder.

(** One call of the render callback: the time [Date] reports and the
    canvas that was drawn. *)
Definition Tick : Type := (Z * Canvas)%type.

(** The copy lines 33-37 make of the canvas [cv]. *)
Definition snapshot (cv : Canvas) : Canvas :=
  {| width := width cv;
     height := height cv;
     content := [DrawCanvas SourceOver (content cv) (of_Z 0) (of_Z 0)] |}.

Definition frame_of (t : Tick) : Frame :=
  {| timestamp := fst t; canvas := snapshot (snd t) |}.

(** [addFrame] called once per tick, in order. *)
Fixpoint capture (ticks : list Tick) (r : Recorder) : Recorder :=
  match ticks with
  | [] => r
  | t :: ticks' => capture ticks' (addFrame (fst t) (snd t) r)
  end.

(** What lines 93-99 hand to the encoder for the frame [f] with the
    delay [d]. *)
Definition gif_frame_of (fd : Frame * Z) : GifFrame :=
  {| image := canvas (fst fd); delay := snd fd; copy := true |}.

(** The encoder lines 68-101 build for the frames [fs]. *)
Definition encoder_for (fs : list Frame) : GIF :=
  {| workers := gifWorkers;
     quality := gifQuality;
     gif_frames :=
       List.map gif_frame_of
         (combine fs (delays_from 1000 (List.map timestamp fs)));
     rendering := true |}.

(** What reaches the recorder: a click on the record button, a rendered
    frame, an event of an encoder. *)
Inductive UiEvent : Type :=
| Click
| FrameDrawn (now : Z) (cv : Canvas)
| Encoder (e : GifEvent).

(** A disabled button fires no click event. *)
Definition deliver (ev : UiEvent) (w : World) : World :=
  match ev with
  | Click => if btnRecord_disabled (fst w) then w else onclick w
  | FrameDrawn now cv => (addFrame now cv (fst w), snd w)
  | Encoder e => handle e w
  end.

Fixpoint run (evs : list UiEvent) (w : World) : World :=
  match evs with
  | [] => w
  | ev :: evs' => run evs' (deliver ev w)
  end.

Definition total (l : list Z) : Z := fold_right Z.add 0 l.

End Recording.

(** ** Layouts moved as a whole *)

Module Layout.
Import StripRenderer.



End Layout.

(** ** StatusReporter, DataProvider and the wiring of [init]
    (lines 231-323) *)

Module App.
Import Dom StripRenderer GifRecorder.

(** The object [/data] answers with, after [JSON.parse]: the colours
    (the property may be missing), the last client as host and port or
    [null], and the number of updates. *)
Record Data : Type := mkData {
  d_pixels : option (list Pixel);
  last_client : option (string * Z);
  data_updates : Z
}.

(** StatusReporter.setData (lines 236-240): the text given to [live]. *)
Definition setData (data : Data) : string :=
  ("Client: "
   ++ match last_client data with
      | Some c => fst c ++ ":" ++ string_of_Z (snd c)
      | None => "-"
      end
   ++ ", Updates: " ++ string_of_Z (data_updates data))%string.

(** A finished request: the status and what [JSON.parse] makes of the
    response text ([None] when it throws). *)
Record Response (A : Type) : Type := mkResponse {
  status : Z;
  parsed : option A
}.
Arguments status {A} r.
Arguments parsed {A} r.

Inductive LogEntry : Type :=
| ErrorParsingJson
| DataRequestFailed
| MapRequestFailed.

(** What the provider leaves outside the objects it calls: the console,
    the timers installed with [setInterval], the map requests sent and
    not yet answered. *)
Record Net : Type := mkNet {
  console : list LogEntry;
  intervals : nat;
  map_requests : nat
}.

Definition log (e : LogEntry) (n : Net) : Net :=
  {| console := console n ++ [e];
     intervals := intervals n;
     map_requests := map_requests n |}.

Section Provider.

(** The state the data callbacks act on. *)
Variable St : Type.

Record DataProvider : Type := mkDataProvider {
  mapCallbacks : list (option (list Point) -> St -> St);
  pixelDataCallbacks : list (Data -> St -> St)
}.

(** constructor (lines 244-247) *)
Definition new_provider : DataProvider :=
  {| mapCallbacks := []; pixelDataCallbacks := [] |}.

(** addPixelDataCallback, addMapCallback (lines 295-301) *)
Definition addPixelDataCallback (cb : Data -> St -> St) (dp : DataProvider)
  : DataProvider :=
  {| mapCallbacks := mapCallbacks dp;
     pixelDataCallbacks := pixelDataCallbacks dp ++ [cb] |}.

Definition addMapCallback (cb : option (list Point) -> St -> St)
  (dp : DataProvider) : DataProvider :=
  {| mapCallbacks := mapCallbacks dp ++ [cb];
     pixelDataCallbacks := pixelDataCallbacks dp |}.

(** The loops of lines 258-260 and 280-282. *)
Fixpoint call_all {A : Type} (cbs : list (A -> St -> St)) (a : A) (s : St) : St :=
  match cbs with
  | [] => s
  | cb :: cbs' => call_all cbs' a (cb a s)
  end.

(** [xhr.onload] of acquirePixelData (lines 253-267) *)
Definition data_onload (dp : DataProvider) (x : Response Data)
  (sn : St * Net) : St * Net :=
  if status x =? 200 then
    match parsed x with
    | Some data => (call_all (pixelDataCallbacks dp) data (fst sn), snd sn)
    | None => (fst sn, log ErrorParsingJson (snd sn))
    end
  else (fst sn, log DataRequestFailed (snd sn)).

(** [xhr.onload] of acquireMap (lines 275-291) *)
Definition map_onload (dp : DataProvider)
  (x : Response (option (list Point))) (sn : St * Net) : St * Net :=
  if status x =? 200 then
    match parsed x with
    | Some m =>
        (call_all (mapCallbacks dp) m (fst sn),
         {| console := console (snd sn);
            intervals := S (intervals (snd sn));
            map_requests := map_requests (snd sn) |})
    | None => (fst sn, log ErrorParsingJson (snd sn))
    end
  else (fst sn, log MapRequestFailed (snd sn)).

(** start, acquireMap (lines 271-274, 292, 303-305): one request sent. *)
Definition start_provider (n : Net) : Net :=
  {| console := console n;
     intervals := intervals n;
     map_requests := S (map_requests n) |}.

End Provider.

Arguments mapCallbacks {St} d.
Arguments pixelDataCallbacks {St} d.
Arguments addPixelDataCallback {St} cb dp.
Arguments addMapCallback {St} cb dp.
Arguments call_all {St A} cbs a s.
Arguments data_onload {St} dp x sn.
Arguments map_onload {St} dp x sn.

(** What the render callback acts on: the time [Date] reports and the
    recorder. *)
Definition Env : Type := (Z * Recorder)%type.

(** [gifRecorder.addFrame.bind(gifRecorder)] (line 314) *)
Definition capture_callback (cv : Canvas) (e : Env) : Env :=
  (fst e, addFrame (fst e) cv (snd e)).

(** The objects [init] creates, the text of [live], and the animation
    frames requested and not yet run. *)
Record Sim : Type := mkSim {
  stripRenderer : Renderer Env;
  gifRecorder : Recorder;
  page : Page;
  live : string;
  animation_requests : nat
}.

Definition set_stripRenderer (s : Sim) (r : Renderer Env) : Sim :=
  {| stripRenderer := r;
     gifRecorder := gifRecorder s;
     page := page s;
     live := live s;
     animation_requests := animation_requests s |}.

Definition set_live (s : Sim) (text : string) : Sim :=
  {| stripRenderer := stripRenderer s;
     gifRecorder := gifRecorder s;
     page := page s;
     live := text;
     animation_requests := animation_requests s |}.

Definition set_recorder (s : Sim) (w : World) : Sim :=
  {| stripRenderer := stripRenderer s;
     gifRecorder := fst w;
     page := snd w;
     live := live s;
     animation_requests := animation_requests s |}.

(** The callbacks of lines 315-319. *)
Definition on_map (m : option (list Point)) (s : Sim) : Sim :=
  set_stripRenderer s (setMap m (stripRenderer s)).

Definition on_data (data : Data) (s : Sim) : Sim :=
  let s := set_stripRenderer s (setPixels (d_pixels data) (stripRenderer s)) in
  set_live s (setData data).

Definition provider : DataProvider Sim :=
  addPixelDataCallback on_data (addMapCallback on_map (new_provider Sim)).

(** init (lines 308-323), on a page with the canvas [animation] and the
    given texts. *)
Definition init (animation : Canvas) (btnText progress liveText : string)
  : Sim * Net :=
  ({| stripRenderer :=
        addRenderCallback capture_callback (StripRenderer.new Env animation);
      gifRecorder := GifRecorder.new btnText progress false;
      page := blank_page;
      live := liveText;
      animation_requests := 1 |},
   start_provider {| console := []; intervals := 0; map_requests := 0 |}).

(** StripRenderer.loop (lines 208-211) at the time [now]: the next
    frame is requested, then the frame is rendered; an exception leaves
    through the caller with the state reached. *)
Definition loop (now : Z) (s : Sim) : Sim :=
  let s :=
    {| stripRenderer := stripRenderer s;
       gifRecorder := gifRecorder s;
       page := page s;
       live := live s;
       animation_requests := S (animation_requests s) |} in
  let res := state_of (render (stripRenderer s, (now, gifRecorder s))) in
  {| stripRenderer := fst res;
     gifRecorder := snd (snd res);
     page := page s;
     live := live s;
     animation_requests := animation_requests s |}.

(** What the browser delivers to the page. *)
Inductive Event : Type :=
| ImageLoaded (w h : Z)
| MapResponse (x : Response (option (list Point)))
| DataResponse (x : Response Data)
| AnimationFrame (now : Z)
| RecordClick
| EncoderEvent (e : GifEvent).

(** A response arrives only for a request that was sent, a frame runs
    only when one was requested, a disabled button fires no click. *)
Definition step (ev : Event) (sn : Sim * Net) : Sim * Net :=
  let '(s, n) := sn in
  match ev with
  | ImageLoaded w h => (set_stripRenderer s (onload w h (stripRenderer s)), n)
  | MapResponse x =>
      match map_requests n with
      | O => sn
      | S k =>
          map_onload provider x
            (s, {| console := console n; intervals := intervals n;
                   map_requests := k |})
      end
  | DataResponse x =>
      match intervals n with
      | O => sn
      | S _ => data_onload provider x sn
      end
  | AnimationFrame now =>
      match animation_requests s with
      | O => sn
      | S k =>
          (loop now
             {| stripRenderer := stripRenderer s;
                gifRecorder := gifRecorder s;
                page := page s;
                live := live s;
                animation_requests := k |}, n)
      end
  | RecordClick =>
      if btnRecord_disabled (gifRecorder s) then sn
      else (set_recorder s (onclick (gifRecorder s, page s)), n)
  | EncoderEvent e => (set_recorder s (handle e (gifRecorder s, page s)), n)
  end.

Fixpoint run (evs : list Event) (sn : Sim * Net) : Sim * Net :=
  match evs with
  | [] => sn
  | ev :: evs' => run evs' (step ev sn)
  end.

Definition is_map_response (ev : Event) : bool :=
  match ev with MapResponse _ => true | _ => false end.

(** A response with status 200 and a body that parses to [a]. *)
Definition ok {A : Type} (a : A) : Response A :=
  {| status := 200; parsed := Some a |}.

(** The renderer of [init] once the sprite of [w] x [h] pixels has
    loaded and the layout [m] has arrived. *)
Definition viewing (animation : Canvas) (w h : Z) (m : list Point)
  : Renderer Env :=
  setMap (Some m)
    (onload w h
       (addRenderCallback capture_callback (StripRenderer.new Env animation))).

(** What every state of the page satisfies: at most one timer or
    pending map request, the recorder's callback is the one registered,
    and before the timer is installed there is neither layout nor
    colours, no captured frame and no encoder. *)
Definition wired (sn : Sim * Net) : Prop :=
  (intervals (snd sn) + map_requests (snd sn) <= 1)%nat
  /\ renderCallbacks (stripRenderer (fst sn)) = [capture_callback]
  /\ (intervals (snd sn) = 0%nat ->
      map (stripRenderer (fst sn)) = None
      /\ pixels (stripRenderer (fst sn)) = None
      /\ frames (gifRecorder (fst sn)) = []
      /\ encoders (page (fst sn)) = []).

(** A response the handlers of lines 253-267 and 275-291 reject. *)
Definition failed {A : Type} (x : Response A) : Prop :=
  status x <> 200 \/ parsed x = None.

End App.

(** * Properties of the capture and export pipeline *)

Section RecorderFacts.
Import Dom GifRecorder.

Lemma delays_from_length (ts : list Z) :
  forall d, List.length (delays_from d ts) = List.length ts.
Proof.
  induction ts as [|t ts IH]; intros d; [reflexivity|].
  destruct ts as [|t' ts]; [reflexivity|].
  change (delays_from d (t :: t' :: ts))
    with ((t' - t) :: delays_from (t' - t) (t' :: ts)).
  cbn [List.length]. now rewrite IH.
Qed.

Lemma delays_from_nth (ts : list Z) :
  forall d i, (i + 1 < List.length ts)%nat ->
    nth_error (delays_from d ts) i = Some (nth (i + 1) ts 0 - nth i ts 0).
Proof.
  induction ts as [|t ts IH]; intros d i Hi; [cbn in Hi; lia|].
  destruct ts as [|t' ts]; [cbn in Hi; lia|].
  change (delays_from d (t :: t' :: ts))
    with ((t' - t) :: delays_from (t' - t) (t' :: ts)).
  destruct i as [|i]; [reflexivity|].
  cbn [nth_error]. rewrite IH by (cbn in *; lia).
  reflexivity.
Qed.

Lemma delays_from_last (ts : list Z) :
  forall d n, List.length ts = S (S n) ->
    nth_error (delays_from d ts) (S n) = nth_error (delays_from d ts) n.
Proof.
  induction ts as [|t ts IH]; intros d n Hn; [discriminate|].
  destruct ts as [|t' ts]; [discriminate|].
  change (delays_from d (t :: t' :: ts))
    with ((t' - t) :: delays_from (t' - t) (t' :: ts)).
  destruct n as [|n].
  - destruct ts; [reflexivity|discriminate].
  - cbn [nth_error]. apply IH. cbn in *; lia.
Qed.

Lemma gif_frames_addFrame g cv d cp :
  gif_frames (gif_addFrame g cv d cp)
  = gif_frames g ++ [ {| image := cv; delay := d; copy := cp |} ].
Proof. reflexivity. Qed.

(** The loop hands the encoder one frame per captured frame, with the
    delays of [delays_from]. *)
Lemma addFrames_delays (suf : list Frame) :
  forall pre i d g,
    List.length pre = i ->
    List.map delay
      (gif_frames (addFrames (pre ++ suf) (List.length suf) i d g))
    = List.map delay (gif_frames g)
      ++ delays_from d (List.map timestamp suf).
Proof.
  induction suf as [|f suf IH]; intros pre i d g Hi.
  - cbn. now rewrite app_nil_r.
  - cbn [List.length addFrames].
    assert (Hf : nth_error (pre ++ f :: suf) i = Some f).
    { rewrite nth_error_app2 by lia.
      replace (i - List.length pre)%nat with 0%nat by lia. reflexivity. }
    rewrite Hf.
    replace (pre ++ f :: suf) with ((pre ++ [f]) ++ suf)
      by (rewrite <- app_assoc; reflexivity).
    destruct suf as [|f1 suf].
    + assert (Hlt : (i + 1 <? List.length ((pre ++ [f]) ++ []))%nat = false).
      { apply Nat.ltb_ge. rewrite app_nil_r, length_app. cbn. lia. }
      rewrite Hlt. cbn [addFrames List.length].
      rewrite gif_frames_addFrame, map_app. reflexivity.
    + assert (Hlt : (i + 1 <? List.length ((pre ++ [f]) ++ f1 :: suf))%nat = true).
      { apply Nat.ltb_lt. rewrite !length_app. cbn. lia. }
      rewrite Hlt.
      assert (Hf1 : nth_error ((pre ++ [f]) ++ f1 :: suf) (i + 1) = Some f1).
      { rewrite nth_error_app2 by (rewrite length_app; cbn; lia).
        rewrite length_app. cbn [List.length].
        replace (i + 1 - (List.length pre + 1))%nat with 0%nat by lia.
        reflexivity. }
      rewrite Hf1.
      rewrite (IH (pre ++ [f]) (S i)) by (rewrite length_app; cbn; lia).
      rewrite gif_frames_addFrame, map_app, <- app_assoc.
      reflexivity.
Qed.

Lemma generateGif_delays (r : Recorder) (p : Page) :
  frames r <> [] ->
  requested_delays (generateGif (r, p))
  = delays_from 1000 (List.map timestamp (frames r)).
Proof.
  intros Hne. unfold generateGif, requested_delays.
  destruct (frames r) as [|f fs] eqn:Hfs; [congruence|].
  rewrite <- Hfs.
  replace (List.length (frames r) =? 0)%nat with false
    by (rewrite Hfs; reflexivity).
  cbn [snd encoders].
  rewrite rev_app_distr. cbn [rev app].
  pose proof (addFrames_delays (frames r) [] 0%nat 1000
                (gif_new gifWorkers gifQuality) eq_refl) as H.
  cbn [app] in H. exact H.
Qed.

(** C4 (as stated, refuted): four frames get four delays, so the
    timestamps 0, 100, 250, 400 do not yield the three delays
    100, 150, 150. *)
Lemma four_frames_not_three_delays :
  requested_delays
    (generateGif (recorded (frames_at createCanvas [0; 100; 250; 400]),
                  blank_page))
  <> [100; 150; 150].
Proof. vm_compute. discriminate. Qed.

(** C4 (amended): for a non-empty recording the encoder is given one
    delay per frame; the delay of frame [i] with a successor is
    [t(i+1) - t(i)]; the last frame repeats the delay of the frame
    before it; a single frame gets 1000.  The timestamps
    0, 100, 250, 400 yield 100, 150, 150, 150, and a single frame
    yields 1000. *)
Theorem frame_delays_follow_timestamps
  (r : Recorder) (p : Page) (cv : Canvas) (t : Z) :
  (frames r <> [] ->
   let ts := List.map timestamp (frames r) in
   let ds := requested_delays (generateGif (r, p)) in
   List.length ds = List.length ts
   /\ (forall i, (i + 1 < List.length ts)%nat ->
         nth_error ds i = Some (nth (i + 1) ts 0 - nth i ts 0))
   /\ (forall n, List.length ts = S (S n) ->
         nth_error ds (S n) = nth_error ds n)
   /\ (List.length ts = 1%nat -> ds = [1000]))
  /\ requested_delays
       (generateGif (recorded (frames_at cv [0; 100; 250; 400]), p))
     = [100; 150; 150; 150]
  /\ requested_delays (generateGif (recorded (frames_at cv [t]), p))
     = [1000].
Proof.
  split; [|split].
  - intros Hne ts ds. subst ds ts.
    rewrite (generateGif_delays r p Hne).
    repeat split.
    + apply delays_from_length.
    + intros i Hi. now apply delays_from_nth.
    + intros n Hn. now apply delays_from_last.
    + intros H1. destruct (List.map timestamp (frames r)) as [|t0 [|t1 l]];
        try discriminate. reflexivity.
  - rewrite generateGif_delays by discriminate. reflexivity.
  - rewrite generateGif_delays by discriminate. reflexivity.
Qed.

Lemma frame_delays_follow_timestamps_witness :
  List.length
    (requested_delays
       (generateGif (recorded (frames_at createCanvas [0; 50; 120]),
                     blank_page)))
  = 3%nat.
Proof.
  refine (proj1 (proj1 (frame_delays_follow_timestamps
                   (recorded (frames_at createCanvas [0; 50; 120]))
                   blank_page createCanvas 0) _)).
  cbn. discriminate.
Defined.

(** The scenario of the specification: frames at 0, 50, 120 ask the
    encoder for the delays 50, 70, 70. *)
Example delays_0_50_120 :
  requested_delays
    (generateGif (recorded (frames_at createCanvas [0; 50; 120]), blank_page))
  = [50; 70; 70].
Proof. reflexivity. Qed.

(** C9: an export requested with no captured frame reports "No frames",
    creates no encoder, and leaves the recorder idle: the record button
    is enabled again and the frame sequence is still empty.  This holds
    for [generateGif] and for [stop], which runs it. *)
Theorem empty_export_reports_no_frames (r : Recorder) (p : Page)
  (Hempty : frames r = []) :
  (let '(r', p') := generateGif (r, p) in
   progressText r' = "No frames"
   /\ btnRecord_disabled r' = false
   /\ frames r' = []
   /\ active r' = active r
   /\ p' = p)
  /\ (let '(r', p') := stop (r, p) in
      progressText r' = "No frames"
      /\ btnRecord_disabled r' = false
      /\ frames r' = []
      /\ session r' = Idle
      /\ p' = p).
Proof.
  unfold stop, generateGif. cbn. rewrite Hempty. cbn.
  repeat split; assumption || reflexivity.
Qed.

Lemma empty_export_reports_no_frames_witness :
  frames (start fresh) = []
  /\ progressText (fst (stop (start fresh, blank_page))) = "No frames"
  /\ session (fst (stop (start fresh, blank_page))) = Idle
  /\ snd (stop (start fresh, blank_page)) = blank_page.
Proof.
  split; [reflexivity|].
  destruct (empty_export_reports_no_frames (start fresh) blank_page eq_refl)
    as [_ H].
  destruct (stop (start fresh, blank_page)) as [r' p'].
  destruct H as (H1 & _ & _ & H4 & H5).
  cbn [fst snd]. repeat split; assumption.
Defined.

(** C2 (the code at the failing input): a frame is captured, the
    export is started and the encoder reports [abort].  The recorder is
    idle again but still holds the frame, whereas after [finished] the
    sequence is empty; the next session, which captures one frame,
    hands the encoder two. *)
Theorem abort_keeps_captured_frames :
  List.map timestamp (frames (fst aborted_session)) = [0]
  /\ session (fst aborted_session) = Idle
  /\ progressText (fst aborted_session) = "Aborted"
  /\ (forall blob, frames (fst (handle (EvFinished blob) first_session)) = [])
  /\ requested_delays second_session = [50; 50].
Proof. repeat split. Qed.

(** On any state, [finished] empties the sequence and [abort] leaves it
    as it is; both enable the record button. *)
Lemma finished_clears_abort_does_not (w : World) (blob : Blob) :
  frames (fst (handle (EvFinished blob) w)) = []
  /\ btnRecord_disabled (fst (handle (EvFinished blob) w)) = false
  /\ frames (fst (handle EvAbort w)) = frames (fst w)
  /\ btnRecord_disabled (fst (handle EvAbort w)) = false.
Proof. destruct w as [r p]. repeat split. Qed.

(** C8 (as stated, refuted): [stop] on a recorder that is already
    disarmed is not a no-op.  On the idle recorder left by an aborted
    export it disables the button and starts a second encoder; on a
    fresh recorder it changes the status text. *)
Lemma stop_when_disarmed_not_noop :
  active (fst aborted_session) = false
  /\ stop aborted_session <> aborted_session
  /\ List.length (encoders (snd aborted_session)) = 1%nat
  /\ List.length (encoders (snd (stop aborted_session))) = 2%nat
  /\ active fresh = false
  /\ stop (fresh, blank_page) <> (fresh, blank_page).
Proof.
  repeat split; try reflexivity.
  - intro H. apply (f_equal (fun w => List.length (encoders (snd w)))) in H.
    vm_compute in H. discriminate.
  - intro H. apply (f_equal (fun w => progressText (fst w))) in H.
    vm_compute in H. discriminate.
Qed.

(** C8 (amended): [start] is idempotent and adds no frame.  [stop] has
    no guard of its own: on a disarmed recorder it keeps [active] false
    and the frames as they are, and runs the export again, which
    reports "No frames" and enables the button when no frame is held,
    and creates one more encoder (button disabled) otherwise.  The
    click handler is what keeps [stop] for the armed state. *)
Theorem start_idempotent_stop_reexports (r : Recorder) (p : Page) :
  (start (start r) = start r /\ frames (start r) = frames r)
  /\ (active r = false ->
      let '(r', p') := stop (r, p) in
      active r' = false
      /\ frames r' = frames r
      /\ btnRecord_innerText r' = "Record"
      /\ (frames r = [] ->
          p' = p /\ progressText r' = "No frames"
          /\ btnRecord_disabled r' = false)
      /\ (frames r <> [] ->
          List.length (encoders p') = S (List.length (encoders p))
          /\ results p' = results p
          /\ progressText r' = progressText r
          /\ btnRecord_disabled r' = true))
  /\ (active r = false -> onclick (r, p) = (start r, p))
  /\ (active r = true -> onclick (r, p) = stop (r, p)).
Proof.
  split; [split; reflexivity|]. split; [|split].
  - intros _. unfold stop, generateGif. cbn.
    destruct (frames r) as [|f fs] eqn:Hfs; cbn.
    + repeat split; try assumption; congruence.
    + repeat split; try congruence.
      rewrite length_app. cbn. lia.
  - intros H. unfold onclick. cbn. now rewrite H.
  - intros H. unfold onclick. cbn. now rewrite H.
Qed.

Lemma start_idempotent_stop_reexports_witness :
  start (start fresh) = start fresh
  /\ active fresh = false
  /\ progressText (fst (stop (fresh, blank_page))) = "No frames"
  /\ onclick (fresh, blank_page) = (start fresh, blank_page).
Proof.
  destruct (start_idempotent_stop_reexports fresh blank_page)
    as ((Hs & _) & Hstop & Hclick & _).
  specialize (Hstop eq_refl). specialize (Hclick eq_refl).
  destruct (stop (fresh, blank_page)) as [r' p'].
  destruct Hstop as (_ & _ & _ & He & _).
  destruct (He eq_refl) as (_ & Hp & _).
  cbn [fst]. repeat split; assumption || reflexivity.
Defined.

End RecorderFacts.

(** * Properties of the rendering pipeline *)

Section NumberFacts.

Lemma Qltb_true (a b : Q) : Qltb a b = true <-> (a < b)%Q.
Proof.
  unfold Qltb. rewrite Qlt_alt.
  destruct (a ?= b)%Q; split; congruence.
Qed.

Lemma Qltb_false (a b : Q) : Qltb a b = false <-> (b <= a)%Q.
Proof.
  rewrite <- not_true_iff_false, Qltb_true. split.
  - apply Qnot_lt_le.
  - apply Qle_not_lt.
Qed.

Lemma signed_inf_not_finite (q : Q) : is_finite (signed_inf q) = false.
Proof. unfold signed_inf. destruct (q ?= 0)%Q; reflexivity. Qed.

Lemma div_by_zero (z : Z) (q : Q) :
  (q == 0)%Q -> div (of_Z z) (Fin q) = signed_inf (inject_Z z).
Proof. intros H. cbn [div of_Z]. apply Qeq_alt in H. now rewrite H. Qed.

Lemma div_by_positive (z : Z) (q : Q) :
  (0 < q)%Q -> div (of_Z z) (Fin q) = rnd (inject_Z z / q).
Proof. intros H. cbn [div of_Z]. apply Qgt_alt in H. now rewrite H. Qed.

Lemma rnd_zero (q : Q) : (q == 0)%Q -> rnd q = Fin 0.
Proof. intros H. unfold rnd. apply Qeq_alt in H. now rewrite H. Qed.

Lemma sub_Fin (p q : Q) : sub (Fin p) (Fin q) = rnd (p + - q).
Proof. reflexivity. Qed.





(** [Math.round] gives the integer [n] with [n - 1/2 <= q < n + 1/2]. *)
Lemma Qround_half_up_spec (q : Q) :
  (inject_Z (Qround_half_up q) - (1 # 2) <= q)%Q
  /\ (q < inject_Z (Qround_half_up q) + (1 # 2))%Q.
Proof.
  unfold Qround_half_up.
  pose proof (Qfloor_le (q + (1 # 2))) as Hlo.
  pose proof (Qlt_floor (q + (1 # 2))) as Hhi.
  rewrite inject_Z_plus in Hhi. change (inject_Z 1) with 1%Q in Hhi.
  split; lra.
Qed.

Lemma Qround_half_up_mono (p q : Q) :
  (p <= q)%Q -> Qround_half_up p <= Qround_half_up q.
Proof.
  intros H. unfold Qround_half_up. apply Qfloor_resp_le. lra.
Qed.

Lemma Qround_half_up_Z (z : Z) : Qround_half_up (inject_Z z) = z.
Proof.
  unfold Qround_half_up.
  assert (H : (inject_Z z + (1 # 2) == (2 * z + 1) # 2)%Q).
  { unfold Qeq, Qplus, inject_Z. cbn -[Z.mul Z.add]. lia. }
  rewrite H. unfold Qfloor.
  symmetry. apply (Z.div_unique_pos (2 * z + 1) 2 z 1); lia.
Qed.

Lemma two_pow_pos (e : Z) : (0 < two_pow e)%Q.
Proof.
  destruct e as [|p|p]; cbn [two_pow]; try reflexivity.
  change 0%Q with (inject_Z 0). rewrite <- Zlt_Qlt.
  rewrite Z.pow_pos_fold. apply Z.pow_pos_nonneg; lia.
Qed.

Lemma two_pow_nonpos (e : Z) :
  e <= 0 -> (two_pow e * inject_Z (2 ^ (- e)) == 1)%Q.
Proof.
  intros He. destruct e as [|p|p]; [reflexivity|lia|].
  cbn [two_pow Z.opp]. rewrite <- Pos2Z.inj_pow.
  unfold Qeq, Qmult, inject_Z. cbn [Qnum Qden]. lia.
Qed.

Lemma nearest_even_nonneg (x : Q) : (0 <= x)%Q -> 0 <= nearest_even x.
Proof.
  intros Hx. unfold nearest_even.
  assert (Hf : 0 <= Qfloor x)
    by (change 0 with (Qfloor 0); now apply Qfloor_resp_le).
  destruct (x - inject_Z (Qfloor x) ?= 1 # 2)%Q; [|lia|lia].
  destruct (Z.even (Qfloor x)); lia.
Qed.

(** Rounding to the nearest integer does not cross an integer. *)
Lemma nearest_even_le_int (x : Q) (N : Z) :
  (x <= inject_Z N)%Q -> nearest_even x <= N.
Proof.
  intros Hx.
  assert (Hf : Qfloor x <= N)
    by (rewrite <- (Qfloor_Z N); now apply Qfloor_resp_le).
  destruct (Z.eq_dec (Qfloor x) N) as [E|E].
  - unfold nearest_even.
    assert (Hr : (x - inject_Z (Qfloor x) ?= 1 # 2)%Q = Lt).
    { apply (proj1 (Qlt_alt _ _)). rewrite E. lra. }
    rewrite Hr. lia.
  - unfold nearest_even.
    destruct (x - inject_Z (Qfloor x) ?= 1 # 2)%Q; [|lia|lia].
    destruct (Z.even (Qfloor x)); lia.
Qed.

Lemma ilog2_le (a : Q) (B : Z) :
  (a <= inject_Z B)%Q -> 0 < B -> ilog2 a <= Z.log2 B.
Proof.
  intros Ha HB. unfold ilog2.
  destruct (Qle_bool 1 a) eqn:E.
  - apply Z.log2_le_mono. rewrite <- (Qfloor_Z B). now apply Qfloor_resp_le.
  - pose proof (Z.log2_up_nonneg (Qceiling (/ a))).
    pose proof (Z.log2_nonneg B). lia.
Qed.

Lemma two_pow_1024_large : (inject_Z (2 ^ 53) < two_pow 1024)%Q.
Proof. vm_compute. reflexivity. Qed.

(** A positive rational no larger than an integer below [2^53] is
    rounded to a number between 0 and that integer. *)
Lemma rnd_pos_bounded (a : Q) (B : Z) :
  (0 < a)%Q -> (a <= inject_Z B)%Q -> 0 < B < 2 ^ 53 ->
  exists d, rnd_pos a = Some d /\ (0 <= d)%Q /\ (d <= inject_Z B)%Q.
Proof.
  intros Ha HaB HB. unfold rnd_pos.
  set (e := Z.max (ilog2 a - 52) (-1074)).
  assert (He : e <= 0).
  { pose proof (ilog2_le a B HaB (proj1 HB)) as Hl.
    assert (Z.log2 B < 53) by (apply Z.log2_lt_pow2; lia).
    subst e. lia. }
  pose proof (two_pow_pos e) as Ht.
  pose proof (two_pow_nonpos e He) as Hinv.
  set (t := two_pow e) in *.
  set (P := 2 ^ (- e)) in *.
  assert (HP : (0 < inject_Z P)%Q).
  { change 0%Q with (inject_Z 0). rewrite <- Zlt_Qlt. subst P.
    apply Z.pow_pos_nonneg; lia. }
  assert (Hx : (a / t == a * inject_Z P)%Q).
  { assert (Hti : (/ t == inject_Z P)%Q).
    { rewrite <- (Qmult_1_l (/ t)), <- Hinv. field. lra. }
    unfold Qdiv. now rewrite Hti. }
  set (m := nearest_even (a / t)).
  assert (Hm0 : 0 <= m).
  { subst m. apply nearest_even_nonneg. rewrite Hx.
    apply Qmult_le_0_compat; lra. }
  assert (Hm1 : m <= B * P).
  { subst m. apply nearest_even_le_int. rewrite Hx, inject_Z_mult.
    apply Qmult_le_compat_r; lra. }
  assert (Hd0 : (0 <= inject_Z m * t)%Q).
  { apply Qmult_le_0_compat; [|lra].
    change 0%Q with (inject_Z 0). now rewrite <- Zle_Qle. }
  assert (Hd1 : (inject_Z m * t <= inject_Z B)%Q).
  { apply Qle_trans with (inject_Z (B * P) * t)%Q.
    - apply Qmult_le_compat_r; [|lra]. now rewrite <- Zle_Qle.
    - rewrite inject_Z_mult.
      assert (E : (inject_Z B * inject_Z P * t
                   == inject_Z B * (t * inject_Z P))%Q) by ring.
      rewrite E, Hinv. lra. }
  exists (inject_Z m * t)%Q.
  assert (Hno : Qle_bool (two_pow 1024) (inject_Z m * t) = false).
  { apply not_true_iff_false. rewrite Qle_bool_iff.
    pose proof two_pow_1024_large.
    assert (inject_Z B < inject_Z (2 ^ 53))%Q by (rewrite <- Zlt_Qlt; lia).
    lra. }
  rewrite Hno. repeat split; assumption.
Qed.

Lemma two_pow_Qpower (e : Z) : (two_pow e == 2 ^ e)%Q.
Proof.
  destruct e as [|p|p].
  - reflexivity.
  - cbn [two_pow]. rewrite Z.pow_pos_fold.
    apply (Zpower_Qpower 2 (Z.pos p)). lia.
  - cbn [two_pow].
    change (Z.neg p) with (- Z.pos p).
    rewrite Qpower_opp. change 2%Q with (inject_Z 2).
    rewrite <- (Zpower_Qpower 2 (Z.pos p)) by lia.
    rewrite <- Z.pow_pos_fold, <- Pos2Z.inj_pow_pos.
    reflexivity.
Qed.

Lemma two_pow_le (e1 e2 : Z) : e1 <= e2 -> (two_pow e1 <= two_pow e2)%Q.
Proof.
  intros H. rewrite !two_pow_Qpower. apply Qpower_le_compat_l; [exact H|lra].
Qed.

Lemma two_pow_nonneg_Z (e : Z) : 0 <= e -> (two_pow e == inject_Z (2 ^ e))%Q.
Proof.
  intros H. rewrite two_pow_Qpower. symmetry.
  apply (Zpower_Qpower 2 e H).
Qed.

Lemma two_pow_add (e1 e2 : Z) :
  (two_pow (e1 + e2) == two_pow e1 * two_pow e2)%Q.
Proof.
  rewrite !two_pow_Qpower. apply Qpower_plus. lra.
Qed.

(** [2^(ilog2 x) <= x] for a positive [x]. *)
Lemma ilog2_spec_lo (x : Q) : (0 < x)%Q -> (two_pow (ilog2 x) <= x)%Q.
Proof.
  intros Hx. unfold ilog2.
  destruct (Qle_bool 1 x) eqn:E.
  - apply Qle_bool_iff in E.
    assert (Hf : 1 <= Qfloor x)
      by (change 1 with (Qfloor 1); now apply Qfloor_resp_le).
    rewrite two_pow_nonneg_Z by apply Z.log2_nonneg.
    apply Qle_trans with (inject_Z (Qfloor x)); [|apply Qfloor_le].
    rewrite <- Zle_Qle. apply Z.log2_spec. lia.
  - set (n := Qceiling (/ x)).
    assert (Hn : (/ x <= inject_Z n)%Q) by apply Qle_ceiling.
    assert (Hp : n <= 2 ^ Z.log2_up n).
    { destruct (Z_le_gt_dec n 1) as [H1|H1].
      - rewrite (Z.log2_up_eqn0 n H1). cbn. lia.
      - apply Z.log2_up_spec. lia. }
    rewrite two_pow_Qpower, Qpower_opp. change 2%Q with (inject_Z 2).
    rewrite <- Zpower_Qpower by apply Z.log2_up_nonneg.
    assert (H2 : (/ x <= inject_Z (2 ^ Z.log2_up n))%Q).
    { apply Qle_trans with (inject_Z n); [exact Hn|].
      now rewrite <- Zle_Qle. }
    assert (Hpos : (0 < inject_Z (2 ^ Z.log2_up n))%Q).
    { change 0%Q with (inject_Z 0). rewrite <- Zlt_Qlt.
      apply Z.pow_pos_nonneg; [lia|apply Z.log2_up_nonneg]. }
    apply Qle_shift_inv_r; [exact Hpos|].
    assert (H3 : (/ x * x == 1)%Q) by (field; lra).
    rewrite <- H3. rewrite (Qmult_comm x). apply Qmult_le_compat_r; lra.
Qed.

Lemma nearest_even_ge_floor (x : Q) : Qfloor x <= nearest_even x.
Proof.
  unfold nearest_even.
  destruct (x - inject_Z (Qfloor x) ?= 1 # 2)%Q; [|lia|lia].
  destruct (Z.even (Qfloor x)); lia.
Qed.

(** A rational no smaller than the smallest positive binary64 number is
    not rounded to zero. *)
Lemma rnd_not_flushed (x : Q) :
  (two_pow (-1074) <= x)%Q ->
  rnd x = PInf \/ exists d, rnd x = Fin d /\ (0 < d)%Q.
Proof.
  intros Hx.
  pose proof (two_pow_pos (-1074)) as Ht.
  assert (Hpos : (0 < x)%Q) by lra.
  unfold rnd. apply Qgt_alt in Hpos as E. rewrite E.
  unfold rnd_pos.
  set (e := Z.max (ilog2 x - 52) (-1074)).
  assert (He : (two_pow e <= x)%Q).
  { subst e. destruct (Z.max_spec (ilog2 x - 52) (-1074)) as [[_ ->]|[_ ->]].
    - exact Hx.
    - apply Qle_trans with (two_pow (ilog2 x)).
      + apply two_pow_le. lia.
      + now apply ilog2_spec_lo. }
  pose proof (two_pow_pos e) as Hte.
  assert (H1 : (1 <= x / two_pow e)%Q).
  { apply Qle_shift_div_l; [exact Hte|]. lra. }
  assert (Hm : 1 <= nearest_even (x / two_pow e)).
  { pose proof (nearest_even_ge_floor (x / two_pow e)).
    assert (1 <= Qfloor (x / two_pow e))
      by (change 1 with (Qfloor 1); now apply Qfloor_resp_le).
    lia. }
  destruct (Qle_bool (two_pow 1024)
              (inject_Z (nearest_even (x / two_pow e)) * two_pow e)).
  - left. reflexivity.
  - right. eexists. split; [reflexivity|].
    apply Qmult_lt_0_compat; [|exact Hte].
    change 0%Q with (inject_Z 0). rewrite <- Zlt_Qlt. lia.
Qed.

(** A rational that is not negative is not rounded below zero. *)
Lemma rnd_nonneg (x : Q) :
  (0 <= x)%Q -> rnd x = PInf \/ exists d, rnd x = Fin d /\ (0 <= d)%Q.
Proof.
  intros Hx. unfold rnd.
  destruct (x ?= 0)%Q eqn:E.
  - right. exists 0%Q. split; [reflexivity|lra].
  - apply Qlt_alt in E. lra.
  - unfold rnd_pos.
    set (e := Z.max (ilog2 x - 52) (-1074)).
    pose proof (two_pow_pos e) as Hte.
    destruct (Qle_bool (two_pow 1024)
                (inject_Z (nearest_even (x / two_pow e)) * two_pow e)).
    + left. reflexivity.
    + right. eexists. split; [reflexivity|].
      apply Qmult_le_0_compat; [|lra].
      change 0%Q with (inject_Z 0). rewrite <- Zle_Qle.
      apply nearest_even_nonneg.
      apply Qle_shift_div_l; [exact Hte|]. lra.
Qed.

Lemma same_bool_same (a b : number) : same_bool a b = true -> same a b.
Proof.
  destruct a, b; cbn; intros H; try discriminate; auto.
  now apply Qeq_bool_iff.
Qed.

(** On the sample, sum, product, quotient and comparison are those of
    the Standard Library's specification of IEEE 754 binary64. *)
Lemma operations_agree_with_SpecFloat :
  forallb (fun x => forallb (agrees_on x) sample_doubles) sample_doubles
  = true.
Proof. vm_compute. reflexivity. Qed.

(** A binary64 number is a multiple of the smallest positive one. *)
Lemma is_double_grid (q : Q) :
  is_double q = true -> exists z : Z, (q == inject_Z z * two_pow (-1074))%Q.
Proof.
  assert (G : forall a d, rnd_pos a = Some d ->
                exists z : Z, (d == inject_Z z * two_pow (-1074))%Q).
  { intros a d. unfold rnd_pos.
    set (e := Z.max (ilog2 a - 52) (-1074)).
    set (m := nearest_even (a / two_pow e)).
    destruct (Qle_bool (two_pow 1024) (inject_Z m * two_pow e)); [discriminate|].
    intros [= <-].
    exists (m * 2 ^ (e + 1074)).
    assert (He : 0 <= e + 1074) by (subst e; lia).
    replace e with ((e + 1074) + (-1074)) at 1 by lia.
    rewrite two_pow_add, (two_pow_nonneg_Z _ He), inject_Z_mult. ring. }
  unfold is_double, rnd. intros H.
  destruct (q ?= 0)%Q eqn:E.
  - apply Qeq_alt in E. exists 0. rewrite E. ring.
  - destruct (rnd_pos (- q)) as [d|] eqn:R; [|discriminate].
    cbn [same_bool] in H. apply Qeq_bool_iff in H.
    destruct (G _ _ R) as [z Hz]. exists (- z).
    rewrite <- H, Hz, inject_Z_opp. ring.
  - destruct (rnd_pos q) as [d|] eqn:R; [|discriminate].
    cbn [same_bool] in H. apply Qeq_bool_iff in H.
    destruct (G _ _ R) as [z Hz]. exists z.
    rewrite <- H, Hz. reflexivity.
Qed.

(** The difference of two distinct binary64 numbers is not rounded to
    zero. *)
Lemma sub_doubles_positive (a b : Q) :
  is_double a = true -> is_double b = true -> (a < b)%Q ->
  ltb (Fin 0) (sub (Fin b) (Fin a)) = true.
Proof.
  intros Ha Hb Hlt.
  destruct (is_double_grid a Ha) as [za Hza].
  destruct (is_double_grid b Hb) as [zb Hzb].
  pose proof (two_pow_pos (-1074)) as Ht.
  set (t := two_pow (-1074)) in *.
  assert (Hz : za < zb).
  { destruct (Z_lt_le_dec za zb) as [|Hge]; [assumption|exfalso].
    assert ((inject_Z zb * t <= inject_Z za * t)%Q).
    { apply Qmult_le_compat_r; [|lra]. now rewrite <- Zle_Qle. }
    lra. }
  assert (Hd : (t <= b + - a)%Q).
  { assert (E : (b + - a == inject_Z (zb - za) * t)%Q).
    { rewrite Hza, Hzb. unfold Z.sub.
      rewrite inject_Z_plus, inject_Z_opp. ring. }
    rewrite E. rewrite <- (Qmult_1_l t) at 1.
    apply Qmult_le_compat_r; [|lra].
    change 1%Q with (inject_Z 1). rewrite <- Zle_Qle. lia. }
  rewrite sub_Fin.
  destruct (rnd_not_flushed _ Hd) as [->|(d & -> & Hdpos)].
  - reflexivity.
  - cbn [ltb]. now apply Qltb_true.
Qed.

Lemma below_ltb (a b : number) : below a b <-> ltb b a = false.
Proof.
  destruct a, b; cbn; try (split; [reflexivity|trivial]);
    try (split; [contradiction|discriminate]).
  symmetry. apply Qltb_false.
Qed.

(** [x < 2^(ilog2 x + 1)] for a positive [x]. *)
Lemma ilog2_spec_hi (x : Q) : (0 < x)%Q -> (x < two_pow (ilog2 x + 1))%Q.
Proof.
  intros Hx. unfold ilog2.
  destruct (Qle_bool 1 x) eqn:E.
  - apply Qle_bool_iff in E.
    assert (Hf : 1 <= Qfloor x)
      by (change 1 with (Qfloor 1); now apply Qfloor_resp_le).
    assert (Hk : 0 <= Z.log2 (Qfloor x) + 1)
      by (pose proof (Z.log2_nonneg (Qfloor x)); lia).
    rewrite (two_pow_nonneg_Z _ Hk).
    apply Qlt_le_trans with (inject_Z (Qfloor x + 1)); [apply Qlt_floor|].
    rewrite <- Zle_Qle.
    pose proof (Z.log2_spec (Qfloor x)) as S.
    replace (Z.log2 (Qfloor x) + 1) with (Z.succ (Z.log2 (Qfloor x))) by lia.
    lia.
  - assert (E' : (x < 1)%Q).
    { apply Qnot_le_lt. intros C. apply Qle_bool_iff in C. congruence. }
    set (n := Qceiling (/ x)).
    assert (Hinv : (1 < / x)%Q).
    { apply Qlt_shift_inv_l; [exact Hx|]. lra. }
    assert (Hn : 2 <= n).
    { assert (H1 : (1 < inject_Z n)%Q)
        by (apply Qlt_le_trans with (/ x); [exact Hinv|apply Qle_ceiling]).
      change 1%Q with (inject_Z 1) in H1. rewrite <- Zlt_Qlt in H1. lia. }
    pose proof (Z.log2_up_spec n) as S.
    assert (Hj : 1 <= Z.log2_up n).
    { pose proof (Z.log2_up_pos n). lia. }
    replace (- Z.log2_up n + 1) with (- (Z.log2_up n - 1)) by lia.
    set (j := Z.log2_up n - 1) in *.
    assert (Hj0 : 0 <= j) by (subst j; lia).
    assert (Hlt : 2 ^ j < n).
    { replace j with (Z.pred (Z.log2_up n)) by (subst j; lia). apply S. lia. }
    assert (Hq : (inject_Z (2 ^ j) < / x)%Q).
    { apply Qle_lt_trans with (inject_Z (n - 1)).
      - rewrite <- Zle_Qle. lia.
      - apply Qceiling_lt. }
    assert (Hp : (0 < inject_Z (2 ^ j))%Q).
    { change 0%Q with (inject_Z 0). rewrite <- Zlt_Qlt.
      apply Z.pow_pos_nonneg; lia. }
    rewrite two_pow_Qpower, Qpower_opp. change 2%Q with (inject_Z 2).
    rewrite <- Zpower_Qpower by exact Hj0.
    apply Qlt_shift_inv_l; [exact Hp|].
    assert (H3 : (x * / x == 1)%Q) by (field; lra).
    rewrite <- H3. apply Qmult_lt_l; assumption.
Qed.

Lemma two_pow_lt_inv (e1 e2 : Z) :
  (two_pow e1 < two_pow e2)%Q -> e1 < e2.
Proof.
  rewrite !two_pow_Qpower. intros H.
  apply (Qpower_lt_compat_l_inv 2); [exact H|reflexivity].
Qed.

Lemma ilog2_mono (x y : Q) :
  (0 < x)%Q -> (x <= y)%Q -> ilog2 x <= ilog2 y.
Proof.
  intros Hx Hxy.
  pose proof (ilog2_spec_lo x Hx).
  assert (Hy : (0 < y)%Q) by lra.
  pose proof (ilog2_spec_hi y Hy).
  assert (ilog2 x < ilog2 y + 1) by (apply two_pow_lt_inv; lra).
  lia.
Qed.

Lemma nearest_even_le_succ (x : Q) : nearest_even x <= Qfloor x + 1.
Proof.
  unfold nearest_even.
  destruct (x - inject_Z (Qfloor x) ?= 1 # 2)%Q; [|lia|lia].
  destruct (Z.even (Qfloor x)); lia.
Qed.

Lemma nearest_even_mono (x y : Q) :
  (x <= y)%Q -> nearest_even x <= nearest_even y.
Proof.
  intros H.
  pose proof (Qfloor_resp_le _ _ H) as Hf.
  destruct (Z.eq_dec (Qfloor x) (Qfloor y)) as [E|E].
  - unfold nearest_even. rewrite E.
    destruct (Qcompare_spec (x - inject_Z (Qfloor y)) (1 # 2)) as [X|X|X];
      destruct (Qcompare_spec (y - inject_Z (Qfloor y)) (1 # 2)) as [Y|Y|Y];
      try lia; try (exfalso; lra);
      destruct (Z.even (Qfloor y)); lia.
  - pose proof (nearest_even_le_succ x).
    pose proof (nearest_even_ge_floor y). lia.
Qed.

(** Rounding a positive rational is monotone; an overflow stays one. *)
Lemma rnd_pos_mono (x y : Q) :
  (0 < x)%Q -> (x <= y)%Q ->
  match rnd_pos x, rnd_pos y with
  | Some dx, Some dy => (dx <= dy)%Q
  | None, Some _ => False
  | _, None => True
  end.
Proof.
  intros Hx Hxy.
  assert (Hy : (0 < y)%Q) by lra.
  assert (D : (inject_Z (nearest_even (x / two_pow (Z.max (ilog2 x - 52) (-1074))))
               * two_pow (Z.max (ilog2 x - 52) (-1074))
               <= inject_Z (nearest_even (y / two_pow (Z.max (ilog2 y - 52) (-1074))))
                  * two_pow (Z.max (ilog2 y - 52) (-1074)))%Q).
  { pose proof (ilog2_mono x y Hx Hxy) as Hk.
    set (ex := Z.max (ilog2 x - 52) (-1074)).
    set (ey := Z.max (ilog2 y - 52) (-1074)).
    pose proof (two_pow_pos ex) as Tx.
    pose proof (two_pow_pos ey) as Ty.
    destruct (Z.eq_dec ex ey) as [E|E].
    - rewrite E. apply Qmult_le_compat_r; [|lra].
      rewrite <- Zle_Qle. apply nearest_even_mono.
      unfold Qdiv. apply Qmult_le_compat_r; [exact Hxy|].
      apply Qlt_le_weak, Qinv_lt_0_compat. rewrite <- E. exact Tx.
    - assert (Hey : ey = ilog2 y - 52) by (subst ex ey; lia).
      assert (Hlt : ilog2 x + 1 <= ilog2 y) by (subst ex ey; lia).
      assert (Hex : ex < ey) by (subst ex ey; lia).
      (* the rounded x stays below 2^(ilog2 y), which the rounded y reaches *)
      apply Qle_trans with (two_pow (ilog2 y)).
      + set (N := 2 ^ (ilog2 y - ex)).
        assert (HN : (two_pow (ilog2 y) == inject_Z N * two_pow ex)%Q).
        { replace (ilog2 y) with ((ilog2 y - ex) + ex) at 1 by lia.
          rewrite two_pow_add, two_pow_nonneg_Z by lia. reflexivity. }
        rewrite HN. apply Qmult_le_compat_r; [|lra].
        rewrite <- Zle_Qle. apply nearest_even_le_int.
        apply Qle_shift_div_r; [exact Tx|]. rewrite <- HN.
        apply Qle_trans with (two_pow (ilog2 x + 1)).
        * apply Qlt_le_weak. now apply ilog2_spec_hi.
        * now apply two_pow_le.
      + set (M := 2 ^ 52).
        assert (HM : (two_pow (ilog2 y) == inject_Z M * two_pow ey)%Q).
        { replace (ilog2 y) with (52 + ey) at 1 by lia.
          rewrite two_pow_add. reflexivity. }
        rewrite HM. apply Qmult_le_compat_r; [|lra].
        rewrite <- Zle_Qle.
        apply Z.le_trans with (Qfloor (y / two_pow ey));
          [|apply nearest_even_ge_floor].
        rewrite <- (Qfloor_Z M). apply Qfloor_resp_le.
        apply Qle_shift_div_l; [exact Ty|]. rewrite <- HM.
        now apply ilog2_spec_lo. }
  unfold rnd_pos. cbv zeta.
  set (dx := (inject_Z _ * two_pow (Z.max (ilog2 x - 52) (-1074)))%Q) in *.
  set (dy := (inject_Z _ * two_pow (Z.max (ilog2 y - 52) (-1074)))%Q) in *.
  destruct (Qle_bool (two_pow 1024) dx) eqn:Ox;
    destruct (Qle_bool (two_pow 1024) dy) eqn:Oy; try exact I; try exact D.
  apply Qle_bool_iff in Ox.
  assert (C : (two_pow 1024 <= dy)%Q) by lra.
  apply Qle_bool_iff in C. congruence.
Qed.

Lemma rnd_pos_nonneg (x d : Q) :
  (0 < x)%Q -> rnd_pos x = Some d -> (0 <= d)%Q.
Proof.
  intros Hx. unfold rnd_pos. cbv zeta.
  set (e := Z.max (ilog2 x - 52) (-1074)).
  pose proof (two_pow_pos e) as Hte.
  destruct (Qle_bool _ _); [discriminate|]. intros [= <-].
  apply Qmult_le_0_compat; [|lra].
  change 0%Q with (inject_Z 0). rewrite <- Zle_Qle.
  apply nearest_even_nonneg.
  apply Qle_shift_div_l; [exact Hte|]. lra.
Qed.

(** Rounding to binary64 is monotone. *)
Lemma rnd_mono (p q : Q) : (p <= q)%Q -> below (rnd p) (rnd q).
Proof.
  intros H. unfold rnd.
  destruct (Qcompare_spec p 0) as [P|P|P];
    destruct (Qcompare_spec q 0) as [Q0|Q0|Q0]; try (exfalso; lra).
  - cbn. lra.
  - destruct (rnd_pos q) as [d|] eqn:R; cbn; [|exact I].
    apply (rnd_pos_nonneg q); assumption.
  - destruct (rnd_pos (- p)) as [d|] eqn:R; cbn; [|exact I].
    assert ((0 <= d)%Q) by (apply (rnd_pos_nonneg (- p)); [lra|assumption]).
    lra.
  - assert (Hp : (0 < - q)%Q) by lra.
    assert (Hle : (- q <= - p)%Q) by lra.
    pose proof (rnd_pos_mono _ _ Hp Hle) as M.
    destruct (rnd_pos (- q)) as [dq|], (rnd_pos (- p)) as [dp|]; cbn;
      try exact I; try contradiction. lra.
  - destruct (rnd_pos (- p)) as [dp|] eqn:Rp; [|destruct (rnd_pos q); exact I].
    destruct (rnd_pos q) as [dq|] eqn:Rq; cbn; [|exact I].
    assert ((0 <= dp)%Q) by (apply (rnd_pos_nonneg (- p)); [lra|assumption]).
    assert ((0 <= dq)%Q) by (apply (rnd_pos_nonneg q); assumption).
    lra.
  - pose proof (rnd_pos_mono _ _ P H) as M.
    destruct (rnd_pos p) as [dp|], (rnd_pos q) as [dq|]; cbn;
      try exact I; try contradiction. exact M.
Qed.

Lemma below_NInf (a : number) : below NInf a.
Proof. destruct a; exact I. Qed.

Lemma below_PInf (a : number) : below a PInf.
Proof. destruct a; exact I. Qed.

Lemma add_below_l (a b c : number) :
  below a b -> below (add a c) (add b c).
Proof.
  destruct a, b, c; cbn [below add]; intros H;
    try exact I; try contradiction;
    try apply below_NInf; try apply below_PInf.
  apply rnd_mono. lra.
Qed.

Lemma add_below_r (a b c : number) :
  below a b -> below (add c a) (add c b).
Proof.
  destruct a, b, c; cbn [below add]; intros H;
    try exact I; try contradiction;
    try apply below_NInf; try apply below_PInf.
  apply rnd_mono. lra.
Qed.

Lemma neg_below (a b : number) : below a b -> below (neg b) (neg a).
Proof.
  destruct a, b; cbn; intros H; try exact I; try contradiction. lra.
Qed.

Lemma signed_inf_below (p q : Q) :
  (p <= q)%Q -> below (signed_inf p) (signed_inf q).
Proof.
  intros H. unfold signed_inf.
  destruct (Qcompare_spec p 0); destruct (Qcompare_spec q 0); cbn;
    try exact I; lra.
Qed.

Lemma below_NaN_r (a : number) : below a NaN.
Proof. destruct a; exact I. Qed.

Ltac by_sign :=
  unfold signed_inf;
  repeat match goal with
         | |- context [(?x ?= 0)%Q] => destruct (Qcompare_spec x 0)
         end;
  first [ exact I | apply below_NaN_r | apply below_PInf | apply below_NInf
        | lra | exfalso; lra ].

(** Multiplying by a factor that is not negative keeps the order. *)
Lemma mul_below (a b s : number) :
  not_negative s -> below a b -> below (mul a s) (mul b s).
Proof.
  destruct s as [s| | |]; cbn [not_negative]; intros Hs;
    try contradiction.
  - destruct a as [p| | |], b as [q| | |]; cbn [below mul]; intros H;
      try exact I; try contradiction; try by_sign.
    apply rnd_mono. apply Qmult_le_compat_r; assumption.
  - destruct a as [p| | |], b as [q| | |]; cbn [below mul]; intros H;
      try exact I; try contradiction; try by_sign.
  - intros _. destruct a, b; exact I.
Qed.

Lemma mul_not_negative (a s : number) :
  not_negative a -> not_negative s -> below (Fin 0) (mul a s).
Proof.
  destruct a as [p| | |], s as [s| | |]; cbn [not_negative mul];
    intros Ha Hs; try contradiction; try exact I.
  - change (Fin 0) with (rnd 0) at 1. apply rnd_mono.
    now apply Qmult_le_0_compat.
  - unfold signed_inf. destruct (Qcompare_spec p 0); try exact I. lra.
  - unfold signed_inf. destruct (Qcompare_spec s 0); try exact I. lra.
Qed.

Lemma rnd_not_negative (x : Q) : (0 <= x)%Q -> not_negative (rnd x).
Proof.
  intros H. destruct (rnd_nonneg x H) as [->|(d & -> & Hd)]; [exact I|exact Hd].
Qed.

(** A quotient of two numbers that are not negative is not negative. *)
Lemma div_not_negative (z : Z) (d : number) :
  0 <= z -> not_negative d -> not_negative (div (of_Z z) d).
Proof.
  intros Hz. assert (Hq : (0 <= inject_Z z)%Q)
    by (change 0%Q with (inject_Z 0); now rewrite <- Zle_Qle).
  destruct d as [q| | |]; cbn [not_negative div of_Z]; intros Hd;
    try contradiction; try exact I.
  - destruct (Qcompare_spec q 0) as [E|E|E].
    + unfold signed_inf.
      destruct (Qcompare_spec (inject_Z z) 0); try exact I. lra.
    + lra.
    + apply rnd_not_negative. apply Qle_shift_div_l; [exact E|]. lra.
  - lra.
Qed.

End NumberFacts.

Section RemapFacts.
Import Dom StripRenderer.

(** The factor of the remap is 225 / 255 = 15 / 17. *)
Lemma remap_factor (c : Q) :
  ((255 - inject_Z offPixelBrightness) * c / 255 == (15 # 17) * c)%Q.
Proof. change (inject_Z offPixelBrightness) with 30%Q. field. Qed.

Lemma remap_mono (c d : Q) : (c <= d)%Q -> remap c <= remap d.
Proof.
  intros H. unfold remap.
  apply Z.add_le_mono_l, Qround_half_up_mono.
  rewrite !remap_factor. lra.
Qed.

Lemma remap_0 : remap 0 = 30.
Proof. reflexivity. Qed.

Lemma remap_255 : remap 255 = 255.
Proof. reflexivity. Qed.

(** C10: for a channel value between 0 and 255 the remapped value
    [offPixelBrightness + round((255 - offPixelBrightness) * c / 255)]
    lies between the floor, 30, and 255, and it does not decrease when
    the channel value grows. *)
Theorem remap_range_and_monotone (c d : Q)
  (Hc : (0 <= c)%Q) (Hcd : (c <= d)%Q) (Hd : (d <= 255)%Q) :
  remap c
  = offPixelBrightness
    + Qround_half_up ((255 - inject_Z offPixelBrightness) * c / 255)
  /\ offPixelBrightness <= remap c
  /\ remap c <= remap d
  /\ remap d <= 255.
Proof.
  split; [reflexivity|]. split; [|split].
  - change (remap 0 <= remap c). now apply remap_mono.
  - now apply remap_mono.
  - change (remap d <= remap 255). now apply remap_mono.
Qed.

Lemma remap_range_and_monotone_witness :
  offPixelBrightness <= remap 0 /\ remap 0 <= remap 128 /\ remap 128 <= 255.
Proof.
  refine (proj2 (remap_range_and_monotone 0 128 _ _ _)).
  - unfold Qle; cbn; lia.
  - unfold Qle; cbn; lia.
  - unfold Qle; cbn; lia.
Defined.

(** C6 (as stated, refuted): the remap of the channel value 1 is 31,
    not [30 + 225 * 1 / 255]. *)
Lemma remap_1_is_rounded :
  remap 1 = 31
  /\ ~ (inject_Z (remap 1)
        == inject_Z offPixelBrightness
           + (255 - inject_Z offPixelBrightness) * 1 / 255)%Q.
Proof.
  split; [reflexivity|].
  intro H. vm_compute in H. discriminate.
Qed.

(** C6 (amended): the remap sends [c] to the floor, 30, plus
    [(255 - 30) * c / 255] rounded to the nearest integer, a half going
    up; on an integer channel this is [30 + (450 c + 255) / 510] in
    integer division.  The colour (0, 0, 0) fills the silhouette of the
    sprite with 30 in every channel and (255, 255, 255) with 255. *)
Theorem remap_rounds_affine (W : Type) (r : Renderer W) (t : Context)
  (c : Q) (z : Z) :
  remap c
  = offPixelBrightness
    + Qround_half_up ((255 - inject_Z offPixelBrightness) * c / 255)
  /\ (inject_Z (remap c) - (1 # 2)
      <= inject_Z offPixelBrightness
         + (255 - inject_Z offPixelBrightness) * c / 255)%Q
  /\ (inject_Z offPixelBrightness
      + (255 - inject_Z offPixelBrightness) * c / 255
      < inject_Z (remap c) + (1 # 2))%Q
  /\ remap (inject_Z z) = 30 + (450 * z + 255) / 510
  /\ remap 0 = 30
  /\ remap 255 = 255
  /\ content (target (tint r t (remap 0, remap 0, remap 0)))
     = [ DrawSprite SourceOver (of_Z 0) (of_Z 0);
         FillRect SourceIn "rgb(30, 30, 30)" (of_Z 0) (of_Z 0)
           (of_Z (image_width r)) (of_Z (image_height r)) ]
  /\ content (target (tint r t (remap 255, remap 255, remap 255)))
     = [ DrawSprite SourceOver (of_Z 0) (of_Z 0);
         FillRect SourceIn "rgb(255, 255, 255)" (of_Z 0) (of_Z 0)
           (of_Z (image_width r)) (of_Z (image_height r)) ].
Proof.
  split; [reflexivity|].
  pose proof (Qround_half_up_spec
                ((255 - inject_Z offPixelBrightness) * c / 255)) as [Hlo Hhi].
  split; [|split; [|split; [|repeat split]]].
  - unfold remap. rewrite inject_Z_plus. lra.
  - unfold remap. rewrite inject_Z_plus. lra.
  - unfold remap, Qround_half_up. f_equal.
    assert (H : ((255 - inject_Z offPixelBrightness) * inject_Z z / 255
                 + (1 # 2) == (450 * z + 255) # 510)%Q).
    { change (inject_Z offPixelBrightness) with 30%Q.
      unfold Qeq, Qplus, Qdiv, Qmult, Qminus, Qopp, Qplus, Qinv, inject_Z.
      cbn -[Z.mul Z.add]. lia. }
    rewrite H. reflexivity.
Qed.

(** On a byte, the binary64 evaluation of lines 182-184 gives the
    integer that the exact evaluation gives. *)
Lemma remap_binary64_on_bytes (b : Z) :
  0 <= b <= 255 ->
  same (remap_binary64 (inject_Z b)) (of_Z (remap (inject_Z b))).
Proof.
  intros Hb. apply same_bool_same.
  assert (A : forallb (fun z => same_bool (remap_binary64 (inject_Z z))
                                  (of_Z (remap (inject_Z z)))) bytes = true)
    by (vm_compute; reflexivity).
  rewrite forallb_forall in A. apply A.
  unfold bytes. apply in_map_iff. exists (Z.to_nat b).
  split; [lia|]. apply in_seq. lia.
Qed.

End RemapFacts.

Section GeometryFacts.
Import Dom StripRenderer.

Lemma bbox_step_eq (v : Point) (xm xM ym yM : Q) :
  bbox_step v (xm, xM, ym, yM)
  = (if Qltb (fst v) xm then fst v else xm,
     if Qltb xM (fst v) then fst v else xM,
     if Qltb (snd v) ym then snd v else ym,
     if Qltb yM (snd v) then snd v else yM).
Proof. reflexivity. Qed.

(** The loop only widens the box, and the box contains every entry it
    has visited. *)
Lemma bbox_loop_bounds (rest : list Point) :
  forall xm xM ym yM a b c d,
    bbox_loop rest (xm, xM, ym, yM) = (a, b, c, d) ->
    (a <= xm /\ xM <= b /\ c <= ym /\ yM <= d)%Q
    /\ forall v, In v rest ->
         (a <= fst v /\ fst v <= b /\ c <= snd v /\ snd v <= d)%Q.
Proof.
  induction rest as [|v rest IH]; intros xm xM ym yM a b c d H.
  - cbn in H. inversion H; subst.
    split; [repeat split; apply Qle_refl | intros v []].
  - cbn [bbox_loop] in H. rewrite bbox_step_eq in H.
    apply IH in H. destruct H as [(Ha & Hb & Hc & Hd) Hin].
    destruct (Qltb (fst v) xm) eqn:E1, (Qltb xM (fst v)) eqn:E2,
             (Qltb (snd v) ym) eqn:E3, (Qltb yM (snd v)) eqn:E4;
      rewrite ?Qltb_true, ?Qltb_false in *;
      (split; [repeat split; lra|]);
      (intros u [<-|Hu]; [repeat split; lra | now apply Hin]).
Qed.

(** Each side of the box is a coordinate of an entry (or the start
    value). *)
Lemma bbox_loop_attained (rest : list Point) :
  forall xm xM ym yM a b c d,
    bbox_loop rest (xm, xM, ym, yM) = (a, b, c, d) ->
    In a (xm :: List.map fst rest) /\ In b (xM :: List.map fst rest)
    /\ In c (ym :: List.map snd rest) /\ In d (yM :: List.map snd rest).
Proof.
  induction rest as [|v rest IH]; intros xm xM ym yM a b c d H.
  - cbn in H. inversion H; subst. cbn. auto.
  - cbn [bbox_loop] in H. rewrite bbox_step_eq in H.
    apply IH in H. destruct H as (Ha & Hb & Hc & Hd).
    cbn [List.map In] in *.
    repeat split.
    + destruct (Qltb (fst v) xm); destruct Ha; auto.
    + destruct (Qltb xM (fst v)); destruct Hb; auto.
    + destruct (Qltb (snd v) ym); destruct Hc; auto.
    + destruct (Qltb yM (snd v)); destruct Hd; auto.
Qed.

(** When every entry equals the first one, so does every side of the
    box. *)
Lemma bbox_loop_coincident (x0 y0 : Q) (rest : list Point) :
  Forall (fun v => (fst v == x0 /\ snd v == y0)%Q) rest ->
  forall xm xM ym yM a b c d,
    (xm == x0 /\ xM == x0 /\ ym == y0 /\ yM == y0)%Q ->
    bbox_loop rest (xm, xM, ym, yM) = (a, b, c, d) ->
    (a == x0 /\ b == x0 /\ c == y0 /\ d == y0)%Q.
Proof.
  induction 1 as [|v rest [Hx Hy] _ IH];
    intros xm xM ym yM a b c d (H1 & H2 & H3 & H4) H.
  - cbn in H. inversion H; subst. auto.
  - cbn [bbox_loop] in H. rewrite bbox_step_eq in H.
    apply IH in H; [exact H|].
    destruct (Qltb (fst v) xm), (Qltb xM (fst v)),
             (Qltb (snd v) ym), (Qltb yM (snd v)); auto.
Qed.

Lemma bbox_spans_nonneg (v0 : Point) (rest : list Point) (a b c d : Q) :
  bbox v0 rest = (a, b, c, d) -> (0 <= b - a /\ 0 <= d - c)%Q.
Proof.
  intros H. apply bbox_loop_bounds in H. destruct H as [(? & ? & ? & ?) _].
  split; lra.
Qed.

(** What [resizeCanvas] stores, by the branch taken. *)
Lemma resizeCanvas_wide (W : Type) (r : Renderer W) v0 rest t a b c d :
  map r = Some (v0 :: rest) -> tintCtx r = Some t ->
  bbox v0 rest = (a, b, c, d) ->
  ltb (sub (Fin d) (Fin c)) (sub (Fin b) (Fin a)) = true ->
  let s := div (of_Z (maxSize - image_width r)) (sub (Fin b) (Fin a)) in
  scaling (resizeCanvas r) = s
  /\ width (target (ctx (resizeCanvas r))) = of_Z maxSize
  /\ height (target (ctx (resizeCanvas r)))
     = add (round (mul (sub (Fin d) (Fin c)) s)) (of_Z (image_height r))
  /\ xOffset (resizeCanvas r) = Fin (- a)
  /\ yOffset (resizeCanvas r) = Fin (- c).
Proof.
  intros Hm Ht Hb Hlt. unfold resizeCanvas.
  rewrite Hm, Ht, Hb, Hlt. repeat split.
Qed.

Lemma resizeCanvas_tall (W : Type) (r : Renderer W) v0 rest t a b c d :
  map r = Some (v0 :: rest) -> tintCtx r = Some t ->
  bbox v0 rest = (a, b, c, d) ->
  ltb (sub (Fin d) (Fin c)) (sub (Fin b) (Fin a)) = false ->
  let s := div (of_Z (maxSize - image_height r)) (sub (Fin d) (Fin c)) in
  scaling (resizeCanvas r) = s
  /\ width (target (ctx (resizeCanvas r)))
     = add (round (mul (sub (Fin b) (Fin a)) s)) (of_Z (image_width r))
  /\ height (target (ctx (resizeCanvas r))) = of_Z maxSize
  /\ xOffset (resizeCanvas r) = Fin (- a)
  /\ yOffset (resizeCanvas r) = Fin (- c).
Proof.
  intros Hm Ht Hb Hlt. unfold resizeCanvas.
  rewrite Hm, Ht, Hb, Hlt. repeat split.
Qed.

End GeometryFacts.

Section ResizeCanvasFacts.
Import Dom StripRenderer.

Lemma binary64_layout_In (m : list Point) :
  binary64_layout m = true ->
  (forall x, In x (List.map fst m) -> is_double x = true)
  /\ (forall y, In y (List.map snd m) -> is_double y = true).
Proof.
  intros H. unfold binary64_layout in H.
  rewrite forallb_forall in H.
  split; intros z Hz; apply in_map_iff in Hz; destruct Hz as (v & <- & Hv);
    apply H in Hv; apply andb_true_iff in Hv; tauto.
Qed.

(** The span that [resizeCanvas] divides by is positive when the
    coordinates are binary64 numbers and not both spans are zero. *)
Lemma divisor_positive (xMin xMax yMin yMax : Q) :
  is_double xMin = true -> is_double xMax = true ->
  is_double yMin = true -> is_double yMax = true ->
  (xMin <= xMax)%Q -> (yMin <= yMax)%Q ->
  ~ (xMax - xMin == 0 /\ yMax - yMin == 0)%Q ->
  let spanX := sub (Fin xMax) (Fin xMin) in
  let spanY := sub (Fin yMax) (Fin yMin) in
  (ltb spanY spanX = true -> ltb (Fin 0) spanX = true)
  /\ (ltb spanY spanX = false -> ltb (Fin 0) spanY = true).
Proof.
  intros Dxm DxM Dym DyM HX HY Hspan spanX spanY. split; intros E.
  - destruct (Qlt_le_dec xMin xMax) as [Hlt|Hge].
    + now apply sub_doubles_positive.
    + exfalso. subst spanX spanY.
      assert (Z0 : (xMax + - xMin == 0)%Q) by lra.
      rewrite (sub_Fin xMax), (rnd_zero _ Z0), sub_Fin in E.
      destruct (rnd_nonneg (yMax + - yMin)) as [R|(d & R & Hd)]; [lra| |];
        rewrite R in E; [discriminate|].
      cbn [ltb] in E. apply Qltb_true in E. lra.
  - destruct (Qlt_le_dec yMin yMax) as [Hlt|Hge].
    + now apply sub_doubles_positive.
    + exfalso. subst spanX spanY.
      assert (Z0 : (yMax + - yMin == 0)%Q) by lra.
      rewrite (sub_Fin yMax), (rnd_zero _ Z0) in E.
      assert (Hlt : (xMin < xMax)%Q).
      { destruct (Qlt_le_dec xMin xMax) as [|Hge']; [assumption|].
        exfalso. apply Hspan. split; lra. }
      rewrite (sub_doubles_positive _ _ Dxm DxM Hlt) in E. discriminate.
Qed.

(** C5: for a layout of binary64 coordinates with at least one entry
    and a span that is not zero on both axes (and a loaded sprite of
    [w] x [h] pixels), [(xMin, xMax, yMin, yMax)] is the bounding box of
    the entries and, with [spanX = xMax - xMin], [spanY = yMax - yMin] and
    every operation the JavaScript one on binary64 numbers,
    - if [spanX > spanY] then [spanX] is positive,
      [scale = (maxSize - w) / spanX], the canvas is [maxSize] wide and
      [round(spanY * scale) + h] high;
    - otherwise, a tie included, [spanY] is positive,
      [scale = (maxSize - h) / spanY], the canvas is [maxSize] high and
      [round(spanX * scale) + w] wide;
    - the offsets are [-xMin] and [-yMin].
    The layout (0,0), (10,0), (0,10) with a 20 x 20 sprite gives scale
    58 and a canvas of 600 x 600; the layout (0,0), (120,51) gives a
    canvas 600 wide and 266 high, the binary64 product
    [51 * (580 / 120)] falling just below 246.5. *)
Theorem resizeCanvas_fits_layout (W : Type) (r : Renderer W)
  (v0 : Point) (rest : list Point) (t : Context) (xMin xMax yMin yMax : Q)
  (Hmap : map r = Some (v0 :: rest))
  (Htint : tintCtx r = Some t)
  (Hbox : bbox v0 rest = (xMin, xMax, yMin, yMax))
  (Hdbl : binary64_layout (v0 :: rest) = true)
  (Hspan : ~ (xMax - xMin == 0 /\ yMax - yMin == 0)%Q) :
  let spanX := sub (Fin xMax) (Fin xMin) in
  let spanY := sub (Fin yMax) (Fin yMin) in
  let w := image_width r in
  let h := image_height r in
  let r' := resizeCanvas r in
  (forall v, In v (v0 :: rest) ->
     (xMin <= fst v <= xMax)%Q /\ (yMin <= snd v <= yMax)%Q)
  /\ (In xMin (List.map fst (v0 :: rest)) /\ In xMax (List.map fst (v0 :: rest))
      /\ In yMin (List.map snd (v0 :: rest))
      /\ In yMax (List.map snd (v0 :: rest)))
  /\ (is_double xMin = true /\ is_double xMax = true
      /\ is_double yMin = true /\ is_double yMax = true)
  /\ spanX = rnd (xMax - xMin)
  /\ spanY = rnd (yMax - yMin)
  /\ (ltb spanY spanX = true ->
      let scale := div (of_Z (maxSize - w)) spanX in
      ltb (of_Z 0) spanX = true
      /\ scaling r' = scale
      /\ width (target (ctx r')) = of_Z maxSize
      /\ height (target (ctx r')) = add (round (mul spanY scale)) (of_Z h))
  /\ (ltb spanY spanX = false ->
      let scale := div (of_Z (maxSize - h)) spanY in
      ltb (of_Z 0) spanY = true
      /\ scaling r' = scale
      /\ height (target (ctx r')) = of_Z maxSize
      /\ width (target (ctx r')) = add (round (mul spanX scale)) (of_Z w))
  /\ xOffset r' = Fin (- xMin)
  /\ yOffset r' = Fin (- yMin)
  /\ (let ex := setMap (Some triangle) (loaded 20 20) in
      same (scaling ex) (of_Z 58)
      /\ same (width (target (ctx ex))) (of_Z 600)
      /\ same (height (target (ctx ex))) (of_Z 600))
  /\ (let ex := setMap (Some [(0, 0); (120, 51)]%Q) (loaded 20 20) in
      same (width (target (ctx ex))) (of_Z 600)
      /\ same (height (target (ctx ex))) (of_Z 266)).
Proof.
  intros spanX spanY w h r'.
  pose proof (bbox_loop_bounds _ _ _ _ _ _ _ _ _ Hbox)
    as [(Ha & Hb & Hc & Hd) Hin].
  pose proof (bbox_loop_attained _ _ _ _ _ _ _ _ _ Hbox)
    as (Ia & Ib & Ic & Id).
  destruct (binary64_layout_In _ Hdbl) as [Dx Dy].
  cbn [List.map] in Dx, Dy.
  pose proof (Dx _ Ia) as Dxm. pose proof (Dx _ Ib) as DxM.
  pose proof (Dy _ Ic) as Dym. pose proof (Dy _ Id) as DyM.
  assert (HX : (xMin <= xMax)%Q) by lra.
  assert (HY : (yMin <= yMax)%Q) by lra.
  destruct (divisor_positive _ _ _ _ Dxm DxM Dym DyM HX HY Hspan)
    as [Pwide Ptall].
  split; [|split; [|split; [|split; [|split; [|split; [|split]]]]]].
  - intros v [<-|Hv]; [repeat split; assumption|].
    destruct (Hin v Hv) as (? & ? & ? & ?). repeat split; assumption.
  - cbn [List.map]. repeat split; assumption.
  - repeat split; assumption.
  - reflexivity.
  - reflexivity.
  - intros E scale.
    destruct (resizeCanvas_wide W r v0 rest t _ _ _ _ Hmap Htint Hbox E)
      as (Hs & Hw & Hh & _).
    split; [exact (Pwide E)|]. repeat split; assumption.
  - intros E scale.
    destruct (resizeCanvas_tall W r v0 rest t _ _ _ _ Hmap Htint Hbox E)
      as (Hs & Hw & Hh & _).
    split; [exact (Ptall E)|]. repeat split; assumption.
  - assert (Hoff : xOffset r' = Fin (- xMin) /\ yOffset r' = Fin (- yMin)).
    { destruct (ltb spanY spanX) eqn:E.
      - destruct (resizeCanvas_wide W r v0 rest t _ _ _ _ Hmap Htint Hbox E)
          as (_ & _ & _ & Hx & Hy). split; assumption.
      - destruct (resizeCanvas_tall W r v0 rest t _ _ _ _ Hmap Htint Hbox E)
          as (_ & _ & _ & Hx & Hy). split; assumption. }
    destruct Hoff as [Hx Hy].
    split; [exact Hx|]. split; [exact Hy|].
    split; cbv zeta; vm_compute; repeat split; reflexivity.
Qed.

Lemma resizeCanvas_fits_layout_witness :
  let r := unloaded_with triangle 20 20 in
  scaling (resizeCanvas r) = div (of_Z (maxSize - 20)) (sub (Fin 10) (Fin 0))
  /\ height (target (ctx (resizeCanvas r))) = of_Z maxSize
  /\ xOffset (resizeCanvas r) = Fin (- 0)
  /\ yOffset (resizeCanvas r) = Fin (- 0).
Proof.
  intros r.
  assert (Hspan : ~ ((10 - 0 == 0) /\ (10 - 0 == 0))%Q).
  { intros [H _]. vm_compute in H. discriminate. }
  assert (Hdbl : binary64_layout ((0, 0)%Q :: [(10, 0); (0, 10)]%Q) = true)
    by (vm_compute; reflexivity).
  assert (Hltb : ltb (sub (Fin 10) (Fin 0)) (sub (Fin 10) (Fin 0)) = false)
    by (vm_compute; reflexivity).
  destruct (resizeCanvas_fits_layout unit r (0, 0)%Q [(10, 0); (0, 10)]%Q
              (getContext createCanvas)
              0 10 0 10 eq_refl eq_refl eq_refl Hdbl Hspan)
    as (_ & _ & _ & _ & _ & _ & Htall & Hx & Hy & _).
  destruct (Htall Hltb) as (_ & Hs & Hh & _).
  split; [exact Hs|]. split; [exact Hh|]. split; [exact Hx|exact Hy].
Defined.

(** C3: for a layout with at least one entry whose entries all
    coincide (and a loaded sprite), both spans are zero, the branch
    taken is the second one and the scale is [(maxSize - h) / 0]
    computed with no guard: an infinity, or [NaN] when [h = maxSize];
    it is not a finite number, so not the fallback 1 either. *)
Theorem coincident_layout_divides_by_zero (W : Type) (r : Renderer W)
  (v0 : Point) (rest : list Point) (t : Context) (xMin xMax yMin yMax : Q)
  (Hmap : map r = Some (v0 :: rest))
  (Htint : tintCtx r = Some t)
  (Hbox : bbox v0 rest = (xMin, xMax, yMin, yMax))
  (Hsame : Forall (fun v => (fst v == fst v0 /\ snd v == snd v0)%Q) rest) :
  (xMax - xMin == 0)%Q
  /\ (yMax - yMin == 0)%Q
  /\ scaling (resizeCanvas r)
     = div (of_Z (maxSize - image_height r)) (Fin (yMax - yMin))
  /\ scaling (resizeCanvas r)
     = signed_inf (inject_Z (maxSize - image_height r))
  /\ is_finite (scaling (resizeCanvas r)) = false
  /\ ~ same (scaling (resizeCanvas r)) (of_Z 1).
Proof.
  assert (H0 : (fst v0 == fst v0 /\ fst v0 == fst v0
                /\ snd v0 == snd v0 /\ snd v0 == snd v0)%Q)
    by (repeat split; reflexivity).
  destruct (bbox_loop_coincident _ _ _ Hsame _ _ _ _ _ _ _ _ H0 Hbox)
    as (Ea & Eb & Ec & Ed).
  assert (HX : (xMax - xMin == 0)%Q) by (rewrite Ea, Eb; ring).
  assert (HY : (yMax - yMin == 0)%Q) by (rewrite Ec, Ed; ring).
  assert (SX : sub (Fin xMax) (Fin xMin) = Fin 0)
    by (rewrite sub_Fin; apply rnd_zero; exact HX).
  assert (SY : sub (Fin yMax) (Fin yMin) = Fin 0)
    by (rewrite sub_Fin; apply rnd_zero; exact HY).
  assert (E : ltb (sub (Fin yMax) (Fin yMin)) (sub (Fin xMax) (Fin xMin))
              = false)
    by (rewrite SX, SY; reflexivity).
  destruct (resizeCanvas_tall W r v0 rest t _ _ _ _ Hmap Htint Hbox E)
    as (Hs & _).
  assert (Hinf : scaling (resizeCanvas r)
                 = signed_inf (inject_Z (maxSize - image_height r))).
  { rewrite Hs, SY. apply div_by_zero. reflexivity. }
  repeat split; try assumption.
  - rewrite Hinf. symmetry. apply div_by_zero, HY.
  - rewrite Hinf. apply signed_inf_not_finite.
  - rewrite Hinf. unfold signed_inf.
    destruct (inject_Z (maxSize - image_height r) ?= 0)%Q; cbn; auto.
Qed.

Lemma coincident_layout_divides_by_zero_witness :
  let r := setMap (Some [(3, 4); (3, 4)]%Q) (loaded 20 20) in
  scaling (resizeCanvas r) = PInf
  /\ is_finite (scaling (resizeCanvas r)) = false.
Proof.
  intros r.
  assert (Hsame : Forall (fun v : Point => (fst v == 3 /\ snd v == 4)%Q)
                    [(3, 4)%Q]).
  { constructor; [split; reflexivity | constructor]. }
  destruct (coincident_layout_divides_by_zero unit r (3, 4)%Q [(3, 4)%Q]
              (getContext
                 {| width := of_Z 20; height := of_Z 20; content := [] |})
              3 3 4 4 eq_refl eq_refl eq_refl Hsame)
    as (_ & _ & _ & Hinf & Hfin & _).
  split; [exact Hinf | exact Hfin].
Defined.

End ResizeCanvasFacts.

Section RenderFacts.
Import Dom StripRenderer.

Lemma same_setup_refl (W : Type) (r : Renderer W) : same_setup r r.
Proof. repeat split. Qed.

Lemma same_setup_trans (W : Type) (r1 r2 r3 : Renderer W) :
  same_setup r1 r2 -> same_setup r2 r3 -> same_setup r1 r3.
Proof.
  unfold same_setup. intros H1 H2.
  decompose [and] H1. decompose [and] H2. repeat split; congruence.
Qed.

Lemma sprite_at_same_setup (W : Type) (r r' : Renderer W) pv :
  same_setup r r' -> sprite_at r' pv = sprite_at r pv.
Proof.
  unfold same_setup, sprite_at, tinted, position. intros H.
  decompose [and] H. congruence.
Qed.

(** One iteration, when the scratch context exists and the colour is
    there: the scratch canvas is tinted; then either the layout entry
    exists and the light is composited, or the read of the entry
    throws. *)
Lemma render_light_step (W : Type) (ps : list Pixel) (m : list Point)
  (i : nat) (r : Renderer W) (t : Context) (pixel : Pixel) :
  tintCtx r = Some t ->
  globalCompositeOperation (ctx r) = Lighten ->
  nth_error ps i = Some pixel ->
  match nth_error m i with
  | Some v =>
      exists r' t',
        render_light ps m i r = Normal r'
        /\ tintCtx r' = Some t'
        /\ globalCompositeOperation (ctx r') = Lighten
        /\ same_setup r r'
        /\ content (target (ctx r'))
           = content (target (ctx r)) ++ [sprite_at r (pixel, v)]
  | None =>
      exists r' t',
        render_light ps m i r = TypeError (UndefinedMapEntry i) r'
        /\ tintCtx r' = Some t'
        /\ same_setup r r'
        /\ content (target (ctx r')) = content (target (ctx r))
  end.
Proof.
  intros Ht Hop Hp. unfold render_light. rewrite Hp, Ht.
  destruct pixel as [[c0 c1] c2]. cbn [fst snd].
  destruct (nth_error m i) as [v|].
  - eexists. eexists. split; [reflexivity|].
    cbn. rewrite Hop. repeat split.
  - eexists. eexists. split; [reflexivity|].
    cbn. repeat split.
Qed.

(** The loop over the colours [suf_p] that remain from index [i] on,
    against the layout entries [suf_m] that remain: it composites one
    light per colour while layout entries last, and throws at the first
    index that has a colour and no layout entry. *)
Lemma render_loop_spec (W : Type) (suf_p : list Pixel) :
  forall (pre_p : list Pixel) (pre_m suf_m : list Point) (i : nat)
         (r : Renderer W) (t : Context),
    List.length pre_p = i -> List.length pre_m = i ->
    tintCtx r = Some t ->
    globalCompositeOperation (ctx r) = Lighten ->
    exists r',
      same_setup r r'
      /\ content (target (ctx r'))
         = content (target (ctx r))
           ++ List.map (sprite_at r) (combine suf_p suf_m)
      /\ render_loop (pre_p ++ suf_p) (pre_m ++ suf_m)
           (List.length suf_p) i r
         = if (List.length suf_p <=? List.length suf_m)%nat
           then Normal r'
           else TypeError (UndefinedMapEntry (i + List.length suf_m)) r'.
Proof.
  induction suf_p as [|pixel suf_p IH];
    intros pre_p pre_m suf_m i r t Hp Hm Ht Hop.
  - exists r. cbn. rewrite app_nil_r. repeat split.
  - assert (Hpx : nth_error (pre_p ++ pixel :: suf_p) i = Some pixel).
    { rewrite nth_error_app2 by lia.
      replace (i - List.length pre_p)%nat with 0%nat by lia. reflexivity. }
    pose proof (render_light_step W (pre_p ++ pixel :: suf_p)
                  (pre_m ++ suf_m) i r t pixel Ht Hop Hpx) as Hstep.
    cbn [List.length render_loop].
    destruct suf_m as [|v suf_m].
    + assert (Hnone : nth_error (pre_m ++ []) i = None).
      { apply nth_error_None. rewrite app_nil_r. lia. }
      rewrite Hnone in Hstep.
      destruct Hstep as (r' & t' & Hr & _ & Hsame & Hc).
      exists r'. rewrite Hr. cbn. rewrite Hc, app_nil_r, Nat.add_0_r.
      split; [assumption | split; reflexivity].
    + assert (Hv : nth_error (pre_m ++ v :: suf_m) i = Some v).
      { rewrite nth_error_app2 by lia.
        replace (i - List.length pre_m)%nat with 0%nat by lia. reflexivity. }
      rewrite Hv in Hstep.
      destruct Hstep as (r1 & t1 & Hr & Ht1 & Hop1 & Hsame & Hc).
      rewrite Hr.
      replace (pre_p ++ pixel :: suf_p) with ((pre_p ++ [pixel]) ++ suf_p)
        by (rewrite <- app_assoc; reflexivity).
      replace (pre_m ++ v :: suf_m) with ((pre_m ++ [v]) ++ suf_m)
        by (rewrite <- app_assoc; reflexivity).
      destruct (IH (pre_p ++ [pixel]) (pre_m ++ [v]) suf_m (S i) r1 t1)
        as (r' & Hsame' & Hc' & Hloop);
        try assumption; try (rewrite length_app; cbn; lia).
      exists r'. split; [|split].
      * exact (same_setup_trans W r r1 r' Hsame Hsame').
      * rewrite Hc', Hc. cbn [combine List.map].
        rewrite <- app_assoc. cbn [app]. do 2 f_equal.
        apply map_ext. intros pv. now apply sprite_at_same_setup.
      * rewrite Hloop. cbn [List.length Nat.leb].
        replace (S i + List.length suf_m)%nat
          with (i + S (List.length suf_m))%nat by lia.
        reflexivity.
Qed.

(** A whole [render] call with layout, colours and scratch context
    present: the background is filled, one light is composited per
    colour while layout entries last, and the call completes (running
    the callbacks) exactly when there are no more colours than layout
    entries; otherwise it throws at the index [map.length]. *)
Lemma render_spec (W : Type) (r : Renderer W) (w : W)
  (m : list Point) (ps : list Pixel) (t : Context) :
  map r = Some m -> pixels r = Some ps -> tintCtx r = Some t ->
  exists r',
    same_setup r r'
    /\ content (target (ctx r'))
       = content (target (ctx r))
         ++ background r :: List.map (sprite_at r) (combine ps m)
    /\ render (r, w)
       = if (List.length ps <=? List.length m)%nat
         then Normal (r', run_callbacks (renderCallbacks r)
                            (target (ctx r')) w)
         else TypeError (UndefinedMapEntry (List.length m)) (r', w).
Proof.
  intros Hm Hp Ht. unfold render. rewrite Hm, Hp.
  rewrite Nat.min_id.
  set (r0 := set_ctx r _).
  assert (Hsame0 : same_setup r r0) by (repeat split).
  destruct (render_loop_spec W ps [] [] m 0%nat r0 t eq_refl eq_refl)
    as (r' & Hsame & Hc & Hloop); [exact Ht | reflexivity |].
  cbn [app] in Hloop. rewrite Nat.add_0_l in Hloop.
  exists r'. split; [|split].
  - exact (same_setup_trans W r r0 r' Hsame0 Hsame).
  - rewrite Hc. subst r0. cbn [set_ctx ctx target content
      set_globalCompositeOperation fillRect issue set_fillStyle
      globalCompositeOperation fillStyle width height].
    rewrite <- app_assoc. reflexivity.
  - rewrite Hloop.
    destruct (List.length ps <=? List.length m)%nat; [|reflexivity].
    destruct Hsame as (_ & _ & Hcb & _). rewrite Hcb. reflexivity.
Qed.

(** Without a layout or without colours [render] returns at once. *)
Lemma render_noop_without_data (W : Type) (r : Renderer W) (w : W) :
  map r = None \/ pixels r = None -> render (r, w) = Normal (r, w).
Proof.
  intros [H|H]; unfold render; rewrite H; [reflexivity|].
  destruct (map r); reflexivity.
Qed.

(** C1 (the code at the failing input): two layout entries and three
    colours, so the bound of the claim is 2.  The loop bound is
    [min(pixels.length, pixels.length) = 3]: after the two lights the
    loop runs for index 2, reads [map[2]], which is undefined, and
    [render] throws before any callback runs. *)
Theorem render_reads_layout_past_end :
  let m := [(0, 0); (10, 5)]%Q in
  let ps := [black; white; black] in
  let r := with_data m ps (loaded 20 20) in
  Nat.min (List.length m) (List.length ps) = 2%nat
  /\ thrown (render (r, tt)) = Some (UndefinedMapEntry 2)
  /\ content (target (ctx (fst (state_of (render (r, tt))))))
     = [ background r;
         sprite_at r (black, (0, 0)%Q);
         sprite_at r (white, (10, 5)%Q) ].
Proof.
  intros m ps r.
  destruct (render_spec unit r tt m ps
              (getContext
                 {| width := of_Z 20; height := of_Z 20; content := [] |})
              eq_refl eq_refl eq_refl)
    as (r' & _ & Hc & Hr).
  rewrite Hr. cbn -[sprite_at background].
  rewrite Hc. repeat split.
Qed.

(** C7 (the code at the failing input): an empty layout and one
    colour.  [render] does not return early: it fills the background,
    tints the scratch canvas, reads [map[0]], which is undefined, and
    throws.  No light is composited. *)
Theorem render_reads_empty_layout :
  let r := with_data [] [black] (loaded 20 20) in
  map r = Some []
  /\ thrown (render (r, tt)) = Some (UndefinedMapEntry 0)
  /\ content (target (ctx (fst (state_of (render (r, tt))))))
     = [ background r ]
  /\ option_map (fun t => content (target t))
       (tintCtx (fst (state_of (render (r, tt)))))
     = Some (tinted r black).
Proof. intros r. repeat split. Qed.

End RenderFacts.

(** * Further properties of the recorder *)

Section RecordingFacts.
Import Dom GifRecorder Recording.

Lemma set_frames_same (r : Recorder) : set_frames r (frames r) = r.
Proof. destruct r; reflexivity. Qed.

Lemma addFrame_disarmed (now : Z) (cv : Canvas) (r : Recorder) :
  active r = false -> addFrame now cv r = r.
Proof. intros H. unfold addFrame. now rewrite H. Qed.

Lemma addFrame_armed (now : Z) (cv : Canvas) (r : Recorder) :
  active r = true ->
  addFrame now cv r = set_frames r (frames r ++ [frame_of (now, cv)]).
Proof. intros H. unfold addFrame. rewrite H. reflexivity. Qed.

(** X1: while the recorder is disarmed the render callback changes
    nothing, however many frames are drawn; while it is armed every
    call appends exactly one frame, stamped with the time of the call
    and holding a copy of the canvas of the same size, after the frames
    already held, and touches nothing else. *)
Theorem capture_one_frame_per_tick (ticks : list Tick) (r : Recorder) :
  (active r = false -> capture ticks r = r)
  /\ (active r = true ->
      capture ticks r
      = set_frames r (frames r ++ List.map frame_of ticks)).
Proof.
  split.
  - revert r. induction ticks as [|t ticks IH]; intros r H; [reflexivity|].
    cbn [capture]. rewrite addFrame_disarmed by assumption. now apply IH.
  - revert r. induction ticks as [|t ticks IH]; intros r H.
    + cbn. now rewrite app_nil_r, set_frames_same.
    + cbn [capture List.map]. destruct t as [now cv].
      rewrite addFrame_armed by assumption. rewrite IH by assumption.
      cbn. now rewrite <- app_assoc.
Qed.

Lemma capture_one_frame_per_tick_witness :
  capture [(0, createCanvas); (50, createCanvas)] fresh = fresh
  /\ List.map timestamp
       (frames (capture [(0, createCanvas); (50, createCanvas)] (start fresh)))
     = [0; 50].
Proof.
  destruct (capture_one_frame_per_tick
              [(0, createCanvas); (50, createCanvas)] fresh) as [Hoff _].
  destruct (capture_one_frame_per_tick
              [(0, createCanvas); (50, createCanvas)] (start fresh))
    as [_ Hon].
  split; [exact (Hoff eq_refl)|].
  rewrite (Hon eq_refl). reflexivity.
Defined.

Lemma addFrames_keeps_options fs :
  forall n i d g,
    workers (addFrames fs n i d g) = workers g
    /\ quality (addFrames fs n i d g) = quality g
    /\ rendering (addFrames fs n i d g) = rendering g.
Proof.
  intros n. induction n as [|n IH]; intros i d g; [repeat split|].
  cbn [addFrames]. destruct (nth_error fs i); [|repeat split].
  destruct (IH (S i)
              (if (i + 1 <? List.length fs)%nat
               then match nth_error fs (i + 1) with
                    | Some f1 => timestamp f1 - timestamp f
                    | None => d
                    end
               else d)
              (gif_addFrame g (canvas f)
                 (if (i + 1 <? List.length fs)%nat
                  then match nth_error fs (i + 1) with
                       | Some f1 => timestamp f1 - timestamp f
                       | None => d
                       end
                  else d) true)) as (H1 & H2 & H3).
  rewrite H1, H2, H3. repeat split.
Qed.

(** The loop hands the encoder the canvases in capture order, each
    with its delay and [copy: true]. *)
Lemma addFrames_frames (suf : list Frame) :
  forall pre i d g,
    List.length pre = i ->
    gif_frames (addFrames (pre ++ suf) (List.length suf) i d g)
    = gif_frames g
      ++ List.map gif_frame_of
           (combine suf (delays_from d (List.map timestamp suf))).
Proof.
  induction suf as [|f suf IH]; intros pre i d g Hi.
  - cbn. now rewrite app_nil_r.
  - cbn [List.length addFrames].
    assert (Hf : nth_error (pre ++ f :: suf) i = Some f).
    { rewrite nth_error_app2 by lia.
      replace (i - List.length pre)%nat with 0%nat by lia. reflexivity. }
    rewrite Hf.
    replace (pre ++ f :: suf) with ((pre ++ [f]) ++ suf)
      by (rewrite <- app_assoc; reflexivity).
    destruct suf as [|f1 suf].
    + assert (Hlt : (i + 1 <? List.length ((pre ++ [f]) ++ []))%nat = false).
      { apply Nat.ltb_ge. rewrite app_nil_r, length_app. cbn. lia. }
      rewrite Hlt. reflexivity.
    + assert (Hlt : (i + 1 <? List.length ((pre ++ [f]) ++ f1 :: suf))%nat
                    = true).
      { apply Nat.ltb_lt. rewrite !length_app. cbn. lia. }
      rewrite Hlt.
      assert (Hf1 : nth_error ((pre ++ [f]) ++ f1 :: suf) (i + 1) = Some f1).
      { rewrite nth_error_app2 by (rewrite length_app; cbn; lia).
        rewrite length_app. cbn [List.length].
        replace (i + 1 - (List.length pre + 1))%nat with 0%nat by lia.
        reflexivity. }
      rewrite Hf1.
      rewrite (IH (pre ++ [f]) (S i)) by (rewrite length_app; cbn; lia).
      rewrite gif_frames_addFrame, <- app_assoc. reflexivity.
Qed.

Lemma encoder_for_built (fs : list Frame) :
  gif_render (addFrames fs (List.length fs) 0 1000
                (gif_new gifWorkers gifQuality))
  = encoder_for fs.
Proof.
  pose proof (addFrames_frames fs [] 0%nat 1000
                (gif_new gifWorkers gifQuality) eq_refl) as Hf.
  pose proof (addFrames_keeps_options fs (List.length fs) 0%nat 1000
                (gif_new gifWorkers gifQuality)) as (Hw & Hq & _).
  cbn [app gif_new gif_frames workers quality] in *.
  unfold gif_render, encoder_for. rewrite Hf, Hw, Hq. reflexivity.
Qed.

Lemma images_of_combine (fs : list Frame) :
  forall ds : list Z,
    List.length ds = List.length fs ->
    List.map (fun fd => image (gif_frame_of fd)) (combine fs ds)
    = List.map canvas fs.
Proof.
  induction fs as [|f fs IH]; intros [|d ds] Hl; try discriminate;
    [reflexivity|].
  cbn. f_equal. apply IH. now injection Hl.
Qed.

Lemma generateGif_nonempty (r : Recorder) (p : Page) :
  frames r <> [] ->
  generateGif (r, p)
  = (r, {| encoders := encoders p ++ [encoder_for (frames r)];
           results := results p |}).
Proof.
  intros Hne. unfold generateGif.
  destruct (frames r) as [|f fs] eqn:Hfs; [congruence|].
  rewrite <- Hfs.
  replace (List.length (frames r) =? 0)%nat with false
    by (rewrite Hfs; reflexivity).
  now rewrite encoder_for_built.
Qed.

(** X2: an export of a non-empty recording leaves the recorder as it
    is (the frames stay until the encoder finishes) and starts exactly
    one encoder, after those already on the page: 4 workers, quality 0,
    rendering, holding one frame per captured frame, in capture order,
    each with its canvas, its delay and [copy: true]. *)
Theorem generateGif_hands_over_frames (r : Recorder) (p : Page)
  (Hne : frames r <> []) :
  generateGif (r, p)
  = (r, {| encoders := encoders p ++ [encoder_for (frames r)];
           results := results p |})
  /\ List.length (gif_frames (encoder_for (frames r)))
     = List.length (frames r)
  /\ List.map image (gif_frames (encoder_for (frames r)))
     = List.map canvas (frames r)
  /\ Forall (fun g => copy g = true) (gif_frames (encoder_for (frames r))).
Proof.
  assert (Hlen : List.length (delays_from 1000 (List.map timestamp (frames r)))
                 = List.length (frames r))
    by (rewrite delays_from_length; apply length_map).
  split; [|split; [|split]].
  - now apply generateGif_nonempty.
  - cbn [encoder_for gif_frames]. rewrite length_map, length_combine, Hlen.
    apply Nat.min_id.
  - cbn [encoder_for gif_frames]. rewrite map_map.
    now apply images_of_combine.
  - cbn [encoder_for gif_frames]. apply Forall_forall.
    intros g Hg. apply in_map_iff in Hg. destruct Hg as (fd & <- & _).
    reflexivity.
Qed.

Lemma generateGif_hands_over_frames_witness :
  List.length
    (encoders
       (snd (generateGif (recorded (frames_at createCanvas [0; 50; 120]),
                          blank_page))))
  = 1%nat
  /\ fst (generateGif (recorded (frames_at createCanvas [0; 50; 120]),
                       blank_page))
     = recorded (frames_at createCanvas [0; 50; 120]).
Proof.
  assert (Hne : frames (recorded (frames_at createCanvas [0; 50; 120])) <> [])
    by (cbn; discriminate).
  destruct (generateGif_hands_over_frames
              (recorded (frames_at createCanvas [0; 50; 120])) blank_page Hne)
    as (Heq & _).
  rewrite Heq. split; reflexivity.
Defined.

Lemma capture_armed (ticks : list Tick) (r : Recorder) :
  active r = true ->
  capture ticks r = set_frames r (frames r ++ List.map frame_of ticks).
Proof.
  revert r. induction ticks as [|t ticks IH]; intros r H.
  - cbn. now rewrite app_nil_r, set_frames_same.
  - cbn [capture List.map]. destruct t as [now cv].
    rewrite addFrame_armed by assumption. rewrite IH by assumption.
    cbn. now rewrite <- app_assoc.
Qed.

Lemma timestamps_of_ticks (ticks : list Tick) :
  List.map timestamp (List.map frame_of ticks) = List.map fst ticks.
Proof. rewrite map_map. reflexivity. Qed.

(** X3: a whole session.  Starting from a recorder that holds no
    frame, [start], then one callback per tick, then [stop]: the
    recorder is disarmed with the button disabled, it still holds one
    frame per tick, one encoder has been added to the page and it was
    asked for the delays derived from the times of the ticks.  When that
    encoder reports [finished] the frames are gone, the button is enabled
    and the image made from the blob is the last child of the results. *)
Theorem session_exports_then_resets (r : Recorder) (p : Page)
  (ticks : list Tick) (blob : Blob)
  (Hticks : ticks <> []) (Hfresh : frames r = []) :
  let w1 := stop (capture ticks (start r), p) in
  let w2 := handle (EvFinished blob) w1 in
  frames (fst w1) = List.map frame_of ticks
  /\ session (fst w1) = Encoding
  /\ encoders (snd w1)
     = encoders p ++ [encoder_for (List.map frame_of ticks)]
  /\ requested_delays w1 = delays_from 1000 (List.map fst ticks)
  /\ frames (fst w2) = []
  /\ session (fst w2) = Idle
  /\ progressText (fst w2) = "Finished"
  /\ encoders (snd w2) = encoders (snd w1)
  /\ results (snd w2)
     = results p ++ [ {| src := blob; classList := ["gif"] |} ].
Proof.
  intros w1 w2.
  assert (Hcap : frames (capture ticks (start r)) = List.map frame_of ticks).
  { rewrite capture_armed by reflexivity. cbn. now rewrite Hfresh. }
  assert (Hne : List.map frame_of ticks <> []).
  { destruct ticks; [congruence|discriminate]. }
  assert (Hw1 : w1
    = (set_btnText (set_active (set_disabled (capture ticks (start r)) true)
                      false) "Record",
       {| encoders := encoders p ++ [encoder_for (List.map frame_of ticks)];
          results := results p |})).
  { subst w1. unfold stop. rewrite generateGif_nonempty.
    - cbn [set_btnText set_active set_disabled frames]. now rewrite Hcap.
    - cbn [set_btnText set_active set_disabled frames]. now rewrite Hcap. }
  assert (Hd : requested_delays w1 = delays_from 1000 (List.map fst ticks)).
  { subst w1. unfold stop. rewrite generateGif_delays.
    - cbn [set_btnText set_active set_disabled frames].
      now rewrite Hcap, timestamps_of_ticks.
    - cbn [set_btnText set_active set_disabled frames]. now rewrite Hcap. }
  subst w2. rewrite Hd, Hw1. cbn. rewrite Hcap. repeat split.
Qed.

Lemma session_exports_then_resets_witness :
  requested_delays
    (stop (capture [(0, createCanvas); (50, createCanvas); (120, createCanvas)]
             (start fresh), blank_page))
  = [50; 70; 70]
  /\ frames
       (fst (handle (EvFinished [])
               (stop (capture [(0, createCanvas); (50, createCanvas);
                               (120, createCanvas)]
                        (start fresh), blank_page))))
     = [].
Proof.
  assert (Hne : [(0, createCanvas); (50, createCanvas); (120, createCanvas)]
                <> ([] : list Tick)) by discriminate.
  destruct (session_exports_then_resets fresh blank_page
              [(0, createCanvas); (50, createCanvas); (120, createCanvas)]
              [] Hne eq_refl)
    as (_ & _ & _ & Hd & Hf & _).
  split; [exact Hd | exact Hf].
Defined.

Lemma delays_from_nonempty (ts : list Z) (d : Z) :
  ts <> [] -> delays_from d ts <> [].
Proof.
  destruct ts as [|t [|t' ts]]; [congruence| |]; intros _; discriminate.
Qed.

Lemma delays_from_sum (ts : list Z) :
  forall d, ts <> [] ->
    total (removelast (delays_from d ts)) = last ts 0 - hd 0 ts.
Proof.
  induction ts as [|t ts IH]; intros d Hne; [congruence|].
  destruct ts as [|t' ts].
  - cbn. lia.
  - change (delays_from d (t :: t' :: ts))
      with ((t' - t) :: delays_from (t' - t) (t' :: ts)).
    assert (Hn : delays_from (t' - t) (t' :: ts) <> [])
      by (apply delays_from_nonempty; discriminate).
    destruct (delays_from (t' - t) (t' :: ts)) as [|d0 ds] eqn:E;
      [congruence|].
    change (removelast ((t' - t) :: d0 :: ds))
      with ((t' - t) :: removelast (d0 :: ds)).
    change (last (t :: t' :: ts) 0) with (last (t' :: ts) 0).
    unfold total in *. cbn [fold_right hd].
    rewrite <- E, IH by discriminate. cbn [hd]. lia.
Qed.

Lemma delays_from_nonneg (ts : list Z) :
  forall d, 0 <= d ->
    (forall i, (i + 1 < List.length ts)%nat -> nth i ts 0 <= nth (i + 1) ts 0) ->
    Forall (fun x => 0 <= x) (delays_from d ts).
Proof.
  induction ts as [|t ts IH]; intros d Hd Hs; [constructor|].
  destruct ts as [|t' ts]; [repeat constructor; assumption|].
  change (delays_from d (t :: t' :: ts))
    with ((t' - t) :: delays_from (t' - t) (t' :: ts)).
  assert (H0 : t <= t') by (apply (Hs 0%nat); cbn; lia).
  constructor; [lia|].
  apply IH; [lia|].
  intros i Hi. apply (Hs (S i)). cbn in *. lia.
Qed.

(** X4: the delays of an export add up to the length of the recording:
    without the delay of the last frame, their sum is the time from the
    first captured frame to the last one.  When the clock never went
    back between two captures, no delay is negative. *)
Theorem export_duration_matches_recording (r : Recorder) (p : Page)
  (Hne : frames r <> []) :
  let ts := List.map timestamp (frames r) in
  let ds := requested_delays (generateGif (r, p)) in
  total (removelast ds) = last ts 0 - hd 0 ts
  /\ ((forall i, (i + 1 < List.length ts)%nat ->
         nth i ts 0 <= nth (i + 1) ts 0) ->
      Forall (fun d => 0 <= d) ds).
Proof.
  intros ts ds. subst ds. rewrite generateGif_delays by assumption.
  split.
  - apply delays_from_sum. subst ts.
    destruct (frames r); [congruence|discriminate].
  - intros Hs. apply delays_from_nonneg; [lia|exact Hs].
Qed.

Lemma export_duration_matches_recording_witness :
  total (removelast
         (requested_delays
            (generateGif (recorded (frames_at createCanvas [10; 60; 130]),
                          blank_page))))
  = 120.
Proof.
  assert (Hne : frames (recorded (frames_at createCanvas [10; 60; 130])) <> [])
    by (cbn; discriminate).
  exact (proj1 (export_duration_matches_recording
                  (recorded (frames_at createCanvas [10; 60; 130]))
                  blank_page Hne)).
Defined.

(** X5: a progress report between 0 and 1 (a binary64 number) is
    shown as a whole percentage between 0 and 100 followed by the
    percent sign, the percentage being [Math.round] of the binary64
    product [100 * progress]; the handler changes the status text
    only.  The binary64 number nearest to 0.045 is shown as 5%, the
    one nearest to 0.575 as 57%. *)
Theorem progress_shows_percentage (w : World) (progress : Q)
  (Hlo : (0 <= progress)%Q) (Hhi : (progress <= 1)%Q)
  (Hdbl : is_double progress = true) :
  (exists n : Z,
    0 <= n <= 100
    /\ round (mul (of_Z 100) (Fin progress)) = of_Z n
    /\ progressText (fst (handle (EvProgress progress) w))
       = (string_of_Z n ++ "%")%string
    /\ handle (EvProgress progress) w
       = (set_progressText (fst w) (string_of_Z n ++ "%")%string, snd w))
  /\ progressText
       (fst (handle (EvProgress (3242591731706757 # 72057594037927936)) w))
     = "5%"
  /\ progressText
       (fst (handle (EvProgress (2589569785738035 # 4503599627370496)) w))
     = "57%".
Proof.
  split; [|destruct w as [r p]; split;
           cbn [handle fst progressText set_progressText];
           vm_compute; reflexivity].
  assert (Hr : exists d, mul (of_Z 100) (Fin progress) = Fin d
                         /\ (0 <= d)%Q /\ (d <= 100)%Q).
  { cbn [mul of_Z]. unfold rnd.
    destruct (inject_Z 100 * progress ?= 0)%Q eqn:E.
    - exists 0%Q. repeat split; lra.
    - apply Qlt_alt in E. change (inject_Z 100) with 100%Q in E. lra.
    - apply Qgt_alt in E.
      destruct (rnd_pos_bounded (inject_Z 100 * progress) 100 E)
        as (d & Hd & Hd0 & Hd1).
      + change (inject_Z 100) with 100%Q. lra.
      + split; [lia|reflexivity].
      + rewrite Hd. exists d. repeat split; assumption. }
  destruct Hr as (d & Hmul & Hd0 & Hd1).
  exists (Qround_half_up d).
  assert (Hn : 0 <= Qround_half_up d <= 100).
  { split.
    - apply (Qround_half_up_mono 0). exact Hd0.
    - apply (Qround_half_up_mono _ 100). exact Hd1. }
  assert (Htext : to_text (round (mul (of_Z 100) (Fin progress)))
                  = string_of_Z (Qround_half_up d)).
  { rewrite Hmul. cbn [round to_text of_Z]. now rewrite Qfloor_Z. }
  destruct w as [r p].
  split; [exact Hn|]. split; [rewrite Hmul; reflexivity|].
  cbn [handle fst snd set_progressText progressText].
  rewrite Htext. split; reflexivity.
Qed.

Lemma progress_shows_percentage_witness :
  progressText
    (fst (handle (EvProgress (6485183463413514 # 144115188075855872))
            (fresh, blank_page)))
  = "5%".
Proof.
  assert (Hlo : (0 <= 6485183463413514 # 144115188075855872)%Q)
    by (unfold Qle; cbn; lia).
  assert (Hhi : (6485183463413514 # 144115188075855872 <= 1)%Q)
    by (unfold Qle; cbn; lia).
  assert (Hdbl : is_double (6485183463413514 # 144115188075855872) = true)
    by (vm_compute; reflexivity).
  destruct (progress_shows_percentage (fresh, blank_page)
              (6485183463413514 # 144115188075855872) Hlo Hhi Hdbl)
    as ((n & _ & Hn & Ht & _) & _).
  assert (E : round (mul (of_Z 100)
                       (Fin (6485183463413514 # 144115188075855872)))
              = of_Z 5) by (vm_compute; reflexivity).
  rewrite E in Hn. injection Hn as Hn. subst n. exact Ht.
Defined.

Lemma deliver_keeps_gate (ev : UiEvent) (w : World) :
  (btnRecord_disabled (fst w) = true -> active (fst w) = false) ->
  (active (fst w) = true -> btnRecord_innerText (fst w) = "Stop") ->
  (btnRecord_disabled (fst (deliver ev w)) = true ->
   active (fst (deliver ev w)) = false)
  /\ (active (fst (deliver ev w)) = true ->
      btnRecord_innerText (fst (deliver ev w)) = "Stop").
Proof.
  destruct w as [r p]. cbn [fst]. intros H1 H2.
  destruct ev as [|now cv|e].
  - cbn [deliver fst]. destruct (btnRecord_disabled r) eqn:Hd;
      [cbn [fst]; split; intros; auto; congruence|].
    unfold onclick. cbn [fst snd]. destruct (active r) eqn:Ha.
    + unfold stop, generateGif.
      cbn [set_btnText set_active set_disabled frames].
      destruct (List.length (frames r) =? 0)%nat; cbn; split; congruence.
    + cbn. split; congruence.
  - cbn [deliver fst]. unfold addFrame.
    destruct (active r) eqn:Ha; cbn; rewrite ?Ha; split; auto.
  - destruct e; cbn; split; auto; congruence.
Qed.

(** X6: whatever clicks, rendered frames and encoder events reach a
    newly constructed recorder, in any order: while the record button
    is disabled the recorder is disarmed, so the render callback adds
    no frame; and while the recorder is armed the button reads "Stop". *)
Theorem recorder_gate_invariant (evs : list UiEvent)
  (btnText progress : string) (disabled : bool) (p : Page) :
  let w := run evs (new btnText progress disabled, p) in
  (btnRecord_disabled (fst w) = true ->
   active (fst w) = false
   /\ forall now cv, addFrame now cv (fst w) = fst w)
  /\ (active (fst w) = true -> btnRecord_innerText (fst w) = "Stop").
Proof.
  intros w.
  assert (H : (btnRecord_disabled (fst w) = true -> active (fst w) = false)
              /\ (active (fst w) = true
                  -> btnRecord_innerText (fst w) = "Stop")).
  { subst w.
    assert (H0 : (btnRecord_disabled
                    (fst (new btnText progress disabled, p)) = true ->
                  active (fst (new btnText progress disabled, p)) = false)
                 /\ (active (fst (new btnText progress disabled, p)) = true ->
                     btnRecord_innerText
                       (fst (new btnText progress disabled, p)) = "Stop")).
    { cbn. split; [reflexivity|discriminate]. }
    revert H0. generalize (new btnText progress disabled, p).
    induction evs as [|ev evs IH]; intros w0 [H1 H2]; [now split|].
    cbn [run]. apply IH. now apply deliver_keeps_gate. }
  destruct H as [H1 H2]. split; [|exact H2].
  intros Hd. split; [now apply H1|].
  intros now cv. apply addFrame_disarmed. now apply H1.
Qed.

Lemma recorder_gate_invariant_witness :
  let w := run [Click; FrameDrawn 0 createCanvas; Click; Click;
                FrameDrawn 50 createCanvas]
             (new "Record" "" false, blank_page) in
  btnRecord_disabled (fst w) = true
  /\ active (fst w) = false
  /\ List.length (frames (fst w)) = 1%nat.
Proof.
  intros w.
  destruct (recorder_gate_invariant
              [Click; FrameDrawn 0 createCanvas; Click; Click;
               FrameDrawn 50 createCanvas]
              "Record" "" false blank_page) as [H _].
  destruct (H eq_refl) as [Ha _].
  split; [reflexivity|]. split; [exact Ha | reflexivity].
Defined.

End RecordingFacts.

(** * Further properties of the renderer *)

Section RendererFacts.
Import Dom StripRenderer.

(** With a layout that has an entry and a loaded sprite, what
    [resizeCanvas] leaves depends on the layout, the sprite, the
    callbacks and the colours only: not on the canvas, the scale or the
    offsets it finds. *)
Lemma resizeCanvas_determined (W : Type) (r1 r2 : Renderer W)
  (v0 : Point) (rest : list Point) :
  map r1 = Some (v0 :: rest) -> map r2 = Some (v0 :: rest) ->
  tintCtx r1 <> None -> tintCtx r2 = tintCtx r1 ->
  image_width r2 = image_width r1 -> image_height r2 = image_height r1 ->
  renderCallbacks r2 = renderCallbacks r1 -> pixels r2 = pixels r1 ->
  resizeCanvas r2 = resizeCanvas r1.
Proof.
  intros Hm1 Hm2 Ht1 Ht2 Hw Hh Hc Hp. unfold resizeCanvas.
  rewrite Hm1, Hm2, Ht2, Hw, Hh.
  destruct (tintCtx r1) as [t|] eqn:Et; [|congruence].
  destruct (bbox v0 rest) as [[[a b] c] d].
  destruct (ltb (sub (Fin d) (Fin c)) (sub (Fin b) (Fin a)));
    destruct r1, r2;
    cbn [map tintCtx image_width image_height renderCallbacks pixels] in *;
    subst; reflexivity.
Qed.

Lemma resizeCanvas_noop (W : Type) (r : Renderer W) :
  map r = None \/ map r = Some [] \/ tintCtx r = None ->
  resizeCanvas r = r.
Proof.
  unfold resizeCanvas. intros [H|[H|H]]; rewrite H; try reflexivity.
  destruct (map r) as [[|? ?]|]; reflexivity.
Qed.

Lemma resizeCanvas_keeps_inputs (W : Type) (r : Renderer W) :
  map (resizeCanvas r) = map r
  /\ tintCtx (resizeCanvas r) = tintCtx r
  /\ image_width (resizeCanvas r) = image_width r
  /\ image_height (resizeCanvas r) = image_height r
  /\ renderCallbacks (resizeCanvas r) = renderCallbacks r
  /\ pixels (resizeCanvas r) = pixels r.
Proof.
  unfold resizeCanvas.
  destruct (map r) as [[|v0 rest]|] eqn:Hm; try (repeat split; assumption).
  destruct (tintCtx r) as [t|] eqn:Ht; try (repeat split; assumption).
  destruct (bbox v0 rest) as [[[a b] c] d].
  destruct (ltb (sub (Fin d) (Fin c)) (sub (Fin b) (Fin a)));
    cbn [map tintCtx image_width image_height renderCallbacks pixels
         set_offsets set_ctx set_scaling];
    repeat split; assumption.
Qed.

Lemma onload_setMap_commute (W : Type) (r : Renderer W)
  (v0 : Point) (rest : list Point) (w h : Z) :
  onload w h (setMap (Some (v0 :: rest)) r)
  = setMap (Some (v0 :: rest)) (onload w h r).
Proof.
  unfold onload, setMap.
  set (rA := {| ctx := ctx r; image_width := image_width r;
                image_height := image_height r; tintCtx := tintCtx r;
                renderCallbacks := renderCallbacks r;
                pixels := pixels r; map := Some (v0 :: rest);
                scaling := scaling r; xOffset := xOffset r;
                yOffset := yOffset r |}).
  set (T := set_height _ _).
  destruct (resizeCanvas_keeps_inputs W rA)
    as (HmA & _ & _ & _ & HcA & HpA).
  destruct (resizeCanvas_keeps_inputs W
              (set_tintCtx (set_image r w h) (Some T)))
    as (_ & HtB & HwB & HhB & HcB & HpB).
  apply resizeCanvas_determined with (v0 := v0) (rest := rest);
    cbn [map tintCtx image_width image_height renderCallbacks pixels
         set_tintCtx set_image].
  + reflexivity.
  + exact HmA.
  + rewrite HtB. discriminate.
  + rewrite HtB. reflexivity.
  + rewrite HwB. reflexivity.
  + rewrite HhB. reflexivity.
  + rewrite HcB, HcA. reflexivity.
  + rewrite HpB, HpA. reflexivity.
Qed.

(** X7: the viewport does not depend on what arrives first.  For a
    layout with at least one entry, loading the sprite after the layout
    was set and setting the layout after the sprite has loaded leave the
    renderer in the same state, whatever it was before; on a newly
    constructed renderer this holds for every layout message, an empty
    or absent one included.  Running [resizeCanvas] once more changes
    nothing. *)
Theorem viewport_independent_of_arrival_order (W : Type) (r : Renderer W)
  (animation : Canvas) (m : option (list Point))
  (v0 : Point) (rest : list Point) (w h : Z) :
  onload w h (setMap (Some (v0 :: rest)) r)
  = setMap (Some (v0 :: rest)) (onload w h r)
  /\ onload w h (setMap m (new W animation))
     = setMap m (onload w h (new W animation))
  /\ resizeCanvas (resizeCanvas r) = resizeCanvas r.
Proof.
  split; [|split].
  - apply onload_setMap_commute.
  - destruct m as [[|u0 us]|]; reflexivity.
  - destruct (map r) as [[|u0 us]|] eqn:Hm;
      try (rewrite !(resizeCanvas_noop W r) by auto; reflexivity).
    destruct (tintCtx r) as [t|] eqn:Ht;
      try (rewrite !(resizeCanvas_noop W r) by auto; reflexivity).
    destruct (resizeCanvas_keeps_inputs W r)
      as (Hm' & Ht' & Hw' & Hh' & Hc' & Hp').
    apply resizeCanvas_determined with (v0 := u0) (rest := us);
      try congruence.
Qed.

End RendererFacts.

Section RenderCallFacts.
Import Dom StripRenderer.

Lemma render_light_same_setup (W : Type) (ps : list Pixel) (m : list Point)
  (i : nat) (r : Renderer W) :
  same_setup r (state_of (render_light ps m i r)).
Proof.
  unfold render_light.
  destruct (nth_error ps i) as [[[c0 c1] c2]|]; [|apply same_setup_refl].
  destruct (tintCtx r) as [t|]; [|apply same_setup_refl].
  destruct (nth_error m i) as [v|]; cbn; repeat split.
Qed.

Lemma render_loop_same_setup (W : Type) (ps : list Pixel) (m : list Point)
  (n : nat) :
  forall (i : nat) (r : Renderer W),
    same_setup r (state_of (render_loop ps m n i r)).
Proof.
  induction n as [|n IH]; intros i r; [apply same_setup_refl|].
  cbn [render_loop].
  pose proof (render_light_same_setup W ps m i r) as H1.
  destruct (render_light ps m i r) as [r1|u r1]; cbn [state_of] in *.
  - exact (same_setup_trans W r r1 _ H1 (IH (S i) r1)).
  - exact H1.
Qed.

(** X8: whatever the data, and also when it ends by an exception,
    [render] changes neither the layout, the colours, the scale, the
    offsets, the size of the canvas, the sprite size nor the list of
    callbacks; and when it throws, no callback has run. *)
Theorem render_keeps_viewport (W : Type) (r : Renderer W) (w : W) :
  same_setup r (fst (state_of (render (r, w))))
  /\ (thrown (render (r, w)) <> None -> snd (state_of (render (r, w))) = w).
Proof.
  unfold render.
  destruct (map r) as [m|] eqn:Hm; [|split; [apply same_setup_refl|reflexivity]].
  destruct (pixels r) as [ps|] eqn:Hp;
    [|split; [apply same_setup_refl|reflexivity]].
  set (r0 := set_ctx r _).
  assert (H0 : same_setup r r0) by (repeat split).
  pose proof (render_loop_same_setup W ps m
                (Nat.min (List.length ps) (List.length ps)) 0 r0) as H1.
  destruct (render_loop ps m _ 0 r0) as [r1|u r1]; cbn [state_of fst snd thrown] in *.
  - split; [exact (same_setup_trans W r r0 r1 H0 H1)|congruence].
  - split; [exact (same_setup_trans W r r0 r1 H0 H1)|reflexivity].
Qed.

Lemma render_keeps_viewport_witness :
  let r := with_data [(0, 0); (10, 5)]%Q [black; white; black] (loaded 20 20) in
  scaling (fst (state_of (render (r, tt)))) = scaling r
  /\ map (fst (state_of (render (r, tt)))) = map r
  /\ thrown (render (r, tt)) = Some (UndefinedMapEntry 2).
Proof.
  intros r.
  destruct (render_keeps_viewport unit r tt)
    as ((_ & _ & _ & _ & Hm & Hs & _) & _).
  split; [exact Hs|]. split; [exact Hm|reflexivity].
Defined.

(** X9: colours have arrived but the sprite has not loaded.  With no
    colour at all the call only fills the background and runs the
    callbacks; with at least one colour it fills the background and then
    throws on the missing scratch context, before any light is drawn and
    before any callback runs. *)
Theorem render_before_sprite_loaded (W : Type) (r : Renderer W) (w : W)
  (m : list Point) (ps : list Pixel)
  (Hm : map r = Some m) (Hp : pixels r = Some ps) (Ht : tintCtx r = None) :
  exists r0,
    same_setup r r0
    /\ tintCtx r0 = None
    /\ content (target (ctx r0)) = content (target (ctx r)) ++ [background r]
    /\ render (r, w)
       = match ps with
         | [] => Normal (r0, run_callbacks (renderCallbacks r)
                               (target (ctx r0)) w)
         | _ :: _ => TypeError UndefinedTintCtx (r0, w)
         end.
Proof.
  unfold render. rewrite Hm, Hp.
  set (r0 := set_ctx r _). exists r0.
  split; [repeat split|]. split; [exact Ht|]. split; [reflexivity|].
  destruct ps as [|pixel ps]; [reflexivity|].
  cbn [List.length Nat.min render_loop].
  unfold render_light. cbn [nth_error].
  replace (tintCtx r0) with (@None Context) by (symmetry; exact Ht).
  reflexivity.
Qed.

Lemma render_before_sprite_loaded_witness :
  let r := setPixels (Some [black])
             (setMap (Some triangle) (new unit createCanvas)) in
  thrown (render (r, tt)) = Some UndefinedTintCtx.
Proof.
  intros r.
  destruct (render_before_sprite_loaded unit r tt triangle [black]
              eq_refl eq_refl eq_refl) as (r0 & _ & _ & _ & Hr).
  rewrite Hr. reflexivity.
Defined.

(** X10: with layout, colours and sprite present, [render] completes
    exactly when the colours are no more than the layout entries.  In
    both cases it has filled the background and then composited, in
    index order, one tinted sprite for each index that has both a colour
    and a layout entry, at the position of that entry; on completion the
    callbacks have run on the finished canvas, otherwise the exception
    names the first index without a layout entry and no callback has
    run. *)
Theorem render_completes_iff_layout_covers (W : Type) (r : Renderer W)
  (w : W) (m : list Point) (ps : list Pixel) (t : Context)
  (Hm : map r = Some m) (Hp : pixels r = Some ps) (Ht : tintCtx r = Some t) :
  let res := render (r, w) in
  (thrown res = None <-> (List.length ps <= List.length m)%nat)
  /\ content (target (ctx (fst (state_of res))))
     = content (target (ctx r))
       ++ background r :: List.map (sprite_at r) (combine ps m)
  /\ List.length (combine ps m)
     = Nat.min (List.length ps) (List.length m)
  /\ ((List.length ps <= List.length m)%nat ->
      snd (state_of res)
      = run_callbacks (renderCallbacks r) (target (ctx (fst (state_of res)))) w)
  /\ ((List.length m < List.length ps)%nat ->
      thrown res = Some (UndefinedMapEntry (List.length m))
      /\ snd (state_of res) = w).
Proof.
  intros res. subst res.
  destruct (render_spec W r w m ps t Hm Hp Ht) as (r' & _ & Hc & Hr).
  rewrite Hr.
  destruct (List.length ps <=? List.length m)%nat eqn:E.
  - apply Nat.leb_le in E. cbn [thrown state_of fst snd].
    split; [split; auto|]. split; [exact Hc|].
    split; [apply length_combine|]. split; [reflexivity|]. lia.
  - apply Nat.leb_gt in E. cbn [thrown state_of fst snd].
    split; [split; [discriminate|lia]|]. split; [exact Hc|].
    split; [apply length_combine|]. split; [lia|]. auto.
Qed.

Lemma render_completes_iff_layout_covers_witness :
  let r := with_data triangle [black; white] (loaded 20 20) in
  thrown (render (r, tt)) = None
  /\ List.length (content (target (ctx (fst (state_of (render (r, tt)))))))
     = 3%nat.
Proof.
  intros r.
  destruct (render_completes_iff_layout_covers unit r tt triangle
              [black; white]
              (getContext
                 {| width := of_Z 20; height := of_Z 20; content := [] |})
              eq_refl eq_refl eq_refl) as (Hiff & Hc & _).
  split.
  - apply Hiff. cbn. lia.
  - rewrite Hc. reflexivity.
Defined.

Lemma run_callbacks_app (W : Type) (cbs1 cbs2 : list (Canvas -> W -> W))
  (cv : Canvas) :
  forall w,
    run_callbacks (cbs1 ++ cbs2) cv w
    = run_callbacks cbs2 cv (run_callbacks cbs1 cv w).
Proof.
  induction cbs1 as [|cb cbs1 IH]; intros w; [reflexivity|].
  cbn. apply IH.
Qed.

Lemma render_light_addRenderCallback (W : Type) (cb : Canvas -> W -> W)
  (ps : list Pixel) (m : list Point) (i : nat) (r : Renderer W) :
  render_light ps m i (addRenderCallback cb r)
  = match render_light ps m i r with
    | Normal r' => Normal (addRenderCallback cb r')
    | TypeError u r' => TypeError u (addRenderCallback cb r')
    end.
Proof.
  unfold render_light.
  destruct (nth_error ps i) as [[[c0 c1] c2]|]; [|reflexivity].
  cbn [addRenderCallback tintCtx].
  destruct (tintCtx r) as [t|]; [|reflexivity].
  destruct (nth_error m i) as [v|]; reflexivity.
Qed.

Lemma render_loop_addRenderCallback (W : Type) (cb : Canvas -> W -> W)
  (ps : list Pixel) (m : list Point) (n : nat) :
  forall (i : nat) (r : Renderer W),
    render_loop ps m n i (addRenderCallback cb r)
    = match render_loop ps m n i r with
      | Normal r' => Normal (addRenderCallback cb r')
      | TypeError u r' => TypeError u (addRenderCallback cb r')
      end.
Proof.
  induction n as [|n IH]; intros i r; [reflexivity|].
  cbn [render_loop]. rewrite render_light_addRenderCallback.
  destruct (render_light ps m i r) as [r1|u r1]; [apply IH|reflexivity].
Qed.

(** X11: a callback registered with [addRenderCallback] is called
    last.  When layout and colours are present and [render] completes,
    the callback has been applied, once, to the finished canvas and to
    what the callbacks registered before it left, and the drawing is the
    same as without it; when [render] throws, and when it returns at
    once because the layout or the colours are absent, the callback is
    not called. *)
Theorem new_callback_runs_last (W : Type) (cb : Canvas -> W -> W)
  (r : Renderer W) (w : W) :
  render (addRenderCallback cb r, w)
  = match map r, pixels r with
    | Some _, Some _ =>
        match render (r, w) with
        | Normal (r', w') =>
            Normal (addRenderCallback cb r', cb (target (ctx r')) w')
        | TypeError u (r', w') => TypeError u (addRenderCallback cb r', w')
        end
    | _, _ => Normal (addRenderCallback cb r, w)
    end.
Proof.
  unfold render. cbn [addRenderCallback map pixels].
  destruct (map r) as [m|]; [|reflexivity].
  destruct (pixels r) as [ps|]; [|reflexivity].
  change (set_ctx (addRenderCallback cb r) ?c)
    with (addRenderCallback cb (set_ctx r c)).
  cbn [ctx addRenderCallback].
  rewrite render_loop_addRenderCallback.
  destruct (render_loop ps m _ 0 _) as [r1|u r1]; [|reflexivity].
  cbn [addRenderCallback renderCallbacks ctx].
  now rewrite run_callbacks_app.
Qed.

End RenderCallFacts.

(** * Where the lights are drawn *)

Section ViewportFacts.
Import Dom StripRenderer.

(** The offsets and the sign of the scale after [resizeCanvas]. *)
Lemma viewport_sign (W : Type) (r : Renderer W) v0 rest t a b c d :
  map r = Some (v0 :: rest) -> tintCtx r = Some t ->
  bbox v0 rest = (a, b, c, d) ->
  image_width r <= maxSize -> image_height r <= maxSize ->
  xOffset (resizeCanvas r) = Fin (- a)
  /\ yOffset (resizeCanvas r) = Fin (- c)
  /\ not_negative (scaling (resizeCanvas r)).
Proof.
  intros Hm Ht Hb Hw Hh.
  destruct (bbox_spans_nonneg _ _ _ _ _ _ Hb) as [HX HY].
  assert (NX : not_negative (sub (Fin b) (Fin a)))
    by (rewrite sub_Fin; apply rnd_not_negative; lra).
  assert (NY : not_negative (sub (Fin d) (Fin c)))
    by (rewrite sub_Fin; apply rnd_not_negative; lra).
  destruct (ltb (sub (Fin d) (Fin c)) (sub (Fin b) (Fin a))) eqn:E.
  - destruct (resizeCanvas_wide W r v0 rest t _ _ _ _ Hm Ht Hb E)
      as (Hs & _ & _ & Hx & Hy).
    rewrite Hs. repeat split; try assumption.
    apply div_not_negative; [lia|exact NX].
  - destruct (resizeCanvas_tall W r v0 rest t _ _ _ _ Hm Ht Hb E)
      as (Hs & _ & _ & Hx & Hy).
    rewrite Hs. repeat split; try assumption.
    apply div_not_negative; [lia|exact NY].
Qed.

(** X12: the drawing keeps the order of the lights.  After
    [resizeCanvas] on a layout with at least one entry, with a loaded
    sprite no larger than [maxSize], the scale is not negative; of two
    points the one further right in the layout is not drawn further
    left, and the one higher up is not drawn lower down (the vertical
    axis is flipped); no light of the layout is drawn left of the
    canvas.  All comparisons are those of binary64 numbers. *)
Theorem lights_keep_their_order (W : Type) (r : Renderer W)
  (v0 : Point) (rest : list Point) (t : Context) (v1 v2 : Point)
  (Hmap : map r = Some (v0 :: rest))
  (Htint : tintCtx r = Some t)
  (Hw : image_width r <= maxSize) (Hh : image_height r <= maxSize) :
  let r' := resizeCanvas r in
  not_negative (scaling r')
  /\ ((fst v1 <= fst v2)%Q ->
      ltb (fst (position r' v2)) (fst (position r' v1)) = false)
  /\ ((snd v1 <= snd v2)%Q ->
      ltb (snd (position r' v1)) (snd (position r' v2)) = false)
  /\ (In v1 (v0 :: rest) ->
      ltb (fst (position r' v1)) (of_Z 0) = false).
Proof.
  intros r'. subst r'.
  destruct (bbox v0 rest) as [[[a b] c] d] eqn:Hb.
  destruct (viewport_sign W r v0 rest t _ _ _ _ Hmap Htint Hb Hw Hh)
    as (Hx & Hy & Hs).
  unfold position. cbn [fst snd]. rewrite Hx, Hy.
  split; [exact Hs|]. split; [|split].
  - intros H. apply below_ltb. apply mul_below; [exact Hs|].
    apply add_below_l. exact H.
  - intros H. apply below_ltb. unfold sub.
    apply add_below_l, add_below_r, neg_below.
    apply mul_below; [exact Hs|]. apply add_below_l. exact H.
  - intros Hin. apply below_ltb. change (of_Z 0) with (Fin 0).
    apply mul_not_negative; [|exact Hs].
    cbn [add]. apply rnd_not_negative.
    pose proof (bbox_loop_bounds _ _ _ _ _ _ _ _ _ Hb) as [(Ha & _) Hall].
    destruct Hin as [<-|Hin]; [lra|].
    destruct (Hall _ Hin) as (? & _). lra.
Qed.

Lemma lights_keep_their_order_witness :
  let r' := resizeCanvas (unloaded_with triangle 20 20) in
  ltb (fst (position r' (10, 0)%Q)) (fst (position r' (0, 0)%Q)) = false
  /\ ltb (fst (position r' (0, 0)%Q)) (of_Z 0) = false.
Proof.
  intros r'.
  assert (Hw : 20 <= maxSize) by (unfold maxSize; lia).
  destruct (lights_keep_their_order unit (unloaded_with triangle 20 20)
              (0, 0)%Q [(10, 0); (0, 10)]%Q (getContext createCanvas)
              (0, 0)%Q (10, 0)%Q eq_refl eq_refl Hw Hw)
    as (_ & Hx & _ & H0).
  split.
  - apply Hx. cbn [fst]. lra.
  - apply H0. left. reflexivity.
Defined.

(** X13: the edges of the drawing.  After [resizeCanvas] with a
    finite scale, the lights with the smallest x are drawn at [x = 0]
    and those with the smallest y at
    [(canvas height - 0) - sprite height].  The opposite edges are met
    up to rounding only: with a 20 x 20 sprite, the layout (0,0), (135,0)
    gives a canvas 600 wide and draws the light at 135 at
    [x = 580 + 2^-43], so that its sprite ends past the canvas, and the
    layout (0,0), (0,135) gives a canvas 600 high and draws the light at
    135 at [y = - 2^-43]. *)
Theorem edge_lights_up_to_rounding (W : Type) (r : Renderer W)
  (v0 : Point) (rest : list Point) (t : Context)
  (xMin xMax yMin yMax s : Q) (v : Point)
  (Hmap : map r = Some (v0 :: rest))
  (Htint : tintCtx r = Some t)
  (Hbox : bbox v0 rest = (xMin, xMax, yMin, yMax))
  (Hfin : scaling (resizeCanvas r) = Fin s) :
  let r' := resizeCanvas r in
  ((fst v == xMin)%Q -> fst (position r' v) = Fin 0)
  /\ ((snd v == yMin)%Q ->
      snd (position r' v)
      = sub (sub (height (target (ctx r'))) (Fin 0))
            (of_Z (image_height r)))
  /\ (let wide := setMap (Some [(0, 0); (135, 0)]%Q) (loaded 20 20) in
      same (width (target (ctx wide))) (of_Z 600)
      /\ same (fst (position wide (135, 0)%Q)) (Fin (580 + two_pow (-43))))
  /\ (let tall := setMap (Some [(0, 0); (0, 135)]%Q) (loaded 20 20) in
      same (height (target (ctx tall))) (of_Z 600)
      /\ same (snd (position tall (0, 135)%Q)) (Fin (- two_pow (-43)))).
Proof.
  intros r'. subst r'.
  assert (Hoff : xOffset (resizeCanvas r) = Fin (- xMin)
                 /\ yOffset (resizeCanvas r) = Fin (- yMin)).
  { destruct (ltb (sub (Fin yMax) (Fin yMin)) (sub (Fin xMax) (Fin xMin)))
      eqn:E.
    - destruct (resizeCanvas_wide W r v0 rest t _ _ _ _ Hmap Htint Hbox E)
        as (_ & _ & _ & Hx & Hy). split; assumption.
    - destruct (resizeCanvas_tall W r v0 rest t _ _ _ _ Hmap Htint Hbox E)
        as (_ & _ & _ & Hx & Hy). split; assumption. }
  destruct Hoff as [Hx Hy].
  destruct (resizeCanvas_keeps_inputs W r) as (_ & _ & _ & Hi & _).
  assert (Z0 : mul (Fin 0) (Fin s) = Fin 0)
    by (cbn [mul]; apply rnd_zero; ring).
  unfold position. cbn [fst snd]. rewrite Hx, Hy, Hfin, Hi.
  split; [|split].
  - intros E. cbn [add]. rewrite (rnd_zero (fst v + - xMin)) by lra.
    exact Z0.
  - intros E. cbn [add]. rewrite (rnd_zero (snd v + - yMin)) by lra.
    now rewrite Z0.
  - split; cbv zeta; vm_compute; repeat split; reflexivity.
Qed.

Lemma edge_lights_up_to_rounding_witness :
  let r' := resizeCanvas (unloaded_with triangle 20 20) in
  fst (position r' (0, 10)%Q) = Fin 0.
Proof.
  intros r'.
  assert (Hfin : scaling (resizeCanvas (unloaded_with triangle 20 20))
                 = Fin (8162774324609024 # 140737488355328))
    by (vm_compute; reflexivity).
  destruct (edge_lights_up_to_rounding unit (unloaded_with triangle 20 20)
              (0, 0)%Q [(10, 0); (0, 10)]%Q (getContext createCanvas)
              0 10 0 10 _ (0, 10)%Q eq_refl eq_refl eq_refl Hfin)
    as (Hx & _).
  apply Hx. reflexivity.
Defined.

End ViewportFacts.

(** * Properties of the page as a whole *)

Section AppFacts.
Import Dom StripRenderer GifRecorder Recording App.

Lemma render_same_setup (W : Type) (r : Renderer W) (w : W) :
  same_setup r (fst (state_of (render (r, w)))).
Proof.
  unfold render.
  destruct (map r) as [m|]; [|apply same_setup_refl].
  destruct (pixels r) as [ps|]; [|apply same_setup_refl].
  set (r0 := set_ctx r _).
  assert (H0 : same_setup r r0) by (repeat split).
  pose proof (render_loop_same_setup W ps m
                (Nat.min (List.length ps) (List.length ps)) 0 r0) as H1.
  destruct (render_loop ps m _ 0 r0) as [r1|u r1]; cbn [state_of fst] in *;
    exact (same_setup_trans W r r0 r1 H0 H1).
Qed.

(** X14: one animation frame of the page, with layout, colours and
    sprite present and the recorder's callback the only one registered.
    The next frame is requested in every case.  When the colours are no
    more than the layout entries the frame is drawn and handed to the
    recorder: an armed recorder gains exactly one frame, stamped with
    the time of the tick and holding a copy of the canvas just drawn,
    and a disarmed one is left as it is.  When there are more colours
    than layout entries the exception leaves before the callback: the
    recorder gains no frame, armed or not. *)
Theorem tick_captures_drawn_frame (s : Sim) (now : Z)
  (m : list Point) (ps : list Pixel) (t : Context)
  (Hcb : renderCallbacks (stripRenderer s) = [capture_callback])
  (Hm : map (stripRenderer s) = Some m)
  (Hp : pixels (stripRenderer s) = Some ps)
  (Ht : tintCtx (stripRenderer s) = Some t) :
  let s' := loop now s in
  let drawn := target (ctx (stripRenderer s')) in
  animation_requests s' = S (animation_requests s)
  /\ content drawn
     = content (target (ctx (stripRenderer s)))
       ++ background (stripRenderer s)
          :: List.map (sprite_at (stripRenderer s)) (combine ps m)
  /\ ((List.length ps <= List.length m)%nat ->
      gifRecorder s' = addFrame now drawn (gifRecorder s)
      /\ (active (gifRecorder s) = true ->
          frames (gifRecorder s')
          = frames (gifRecorder s)
            ++ [ {| timestamp := now; canvas := snapshot drawn |} ])
      /\ (active (gifRecorder s) = false -> gifRecorder s' = gifRecorder s))
  /\ ((List.length m < List.length ps)%nat -> gifRecorder s' = gifRecorder s).
Proof.
  intros s' drawn. subst drawn s'. unfold loop.
  cbn [stripRenderer gifRecorder animation_requests].
  unfold Env in *.
  destruct (render_spec (Z * Recorder)%type (stripRenderer s)
              (now, gifRecorder s) m ps t
              Hm Hp Ht) as (r' & _ & Hc & Hr).
  rewrite Hr, Hcb.
  split; [reflexivity|].
  destruct (List.length ps <=? List.length m)%nat eqn:E;
    cbn [state_of fst snd run_callbacks capture_callback].
  - apply Nat.leb_le in E. split; [exact Hc|]. split; [|lia].
    intros _. split; [reflexivity|]. split.
    + intros Ha. rewrite addFrame_armed by assumption. reflexivity.
    + intros Ha. now apply addFrame_disarmed.
  - apply Nat.leb_gt in E. split; [exact Hc|]. split; [lia|].
    intros _. reflexivity.
Qed.

Lemma tick_captures_drawn_frame_witness :
  let s := {| stripRenderer :=
                addRenderCallback capture_callback
                  (setPixels (Some [black; white])
                     (setMap (Some triangle)
                        (onload 20 20 (StripRenderer.new Env createCanvas))));
              gifRecorder := start fresh;
              page := blank_page;
              live := "";
              animation_requests := 0 |} in
  List.map timestamp (frames (gifRecorder (loop 7 s))) = [7].
Proof.
  intros s.
  destruct (tick_captures_drawn_frame s 7 triangle [black; white]
              (getContext
                 {| width := of_Z 20; height := of_Z 20; content := [] |})
              eq_refl eq_refl eq_refl eq_refl) as (_ & _ & Hok & _).
  destruct Hok as (_ & Harmed & _); [cbn; lia|].
  rewrite (Harmed eq_refl). reflexivity.
Defined.

Lemma onload_keeps_data (W : Type) (r : Renderer W) (w h : Z) :
  map (onload w h r) = map r
  /\ pixels (onload w h r) = pixels r
  /\ renderCallbacks (onload w h r) = renderCallbacks r.
Proof.
  unfold onload.
  set (r1 := set_tintCtx _ _).
  destruct (resizeCanvas_keeps_inputs W r1) as (Hm & _ & _ & _ & Hc & Hp).
  rewrite Hm, Hc, Hp. repeat split.
Qed.

Lemma setMap_keeps_data (W : Type) (r : Renderer W)
  (m : option (list Point)) :
  map (setMap m r) = m
  /\ pixels (setMap m r) = pixels r
  /\ renderCallbacks (setMap m r) = renderCallbacks r.
Proof.
  unfold setMap.
  set (r1 := {| ctx := ctx r; image_width := _; image_height := _;
                tintCtx := _; renderCallbacks := _; pixels := _;
                map := _; scaling := _; xOffset := _; yOffset := _ |}).
  destruct (resizeCanvas_keeps_inputs W r1) as (Hm & _ & _ & _ & Hc & Hp).
  rewrite Hm, Hc, Hp. repeat split.
Qed.

Lemma init_wired (animation : Canvas) (btnText progress liveText : string) :
  wired (init animation btnText progress liveText).
Proof. unfold wired. cbn. repeat split. lia. Qed.

Lemma step_wired (ev : Event) (sn : Sim * Net) :
  wired sn -> wired (step ev sn).
Proof.
  destruct sn as [s n]. unfold wired. cbn [fst snd].
  intros (Ha & Hb & Hc).
  destruct ev as [w h|x|x|now| |e]; cbn [step].
  - cbn [fst snd set_stripRenderer stripRenderer gifRecorder page].
    destruct (onload_keeps_data (Z * Recorder) (stripRenderer s) w h)
      as (Hm & Hp & Hcb).
    unfold Env in *. rewrite Hm, Hp, Hcb. auto.
  - destruct (map_requests n) as [|k] eqn:Ek;
      [cbn [fst snd]; split; [lia|auto]|].
    unfold map_onload. cbn [fst snd].
    destruct (status x =? 200); [destruct (parsed x) as [m|]|];
      cbn [fst snd log console intervals map_requests].
    + split; [lia|]. split; [|discriminate].
      cbn [provider mapCallbacks addPixelDataCallback addMapCallback
             new_provider app call_all on_map set_stripRenderer
             stripRenderer].
      destruct (setMap_keeps_data (Z * Recorder) (stripRenderer s) m)
        as (_ & _ & Hcb).
      unfold Env in *. now rewrite Hcb.
    + split; [lia|]. auto.
    + split; [lia|]. auto.
  - destruct (intervals n) as [|k] eqn:Ek;
      [cbn [fst snd]; split; [lia|split; [exact Hb|intros _; auto]]|].
    unfold data_onload. cbn [fst snd].
    destruct (status x =? 200); [destruct (parsed x) as [data|]|];
      cbn [fst snd log console intervals map_requests]; rewrite ?Ek.
    + split; [lia|]. split; [|discriminate]. exact Hb.
    + split; [lia|]. split; [exact Hb|discriminate].
    + split; [lia|]. split; [exact Hb|discriminate].
  - destruct (animation_requests s) as [|k] eqn:Ek;
      [cbn [fst snd]; split; [lia|auto]|].
    cbn [fst snd]. unfold loop.
    cbn [stripRenderer gifRecorder page live animation_requests].
    split; [exact Ha|]. split.
    + pose proof (render_same_setup (Z * Recorder) (stripRenderer s)
                    (now, gifRecorder s)) as (_ & _ & Hcb & _).
      unfold Env in *. rewrite Hcb. exact Hb.
    + intros H0. destruct (Hc H0) as (Hm & Hp & Hf & He).
      unfold Env in *.
      rewrite (render_noop_without_data (Z * Recorder) (stripRenderer s)
                 (now, gifRecorder s)) by (left; exact Hm).
      cbn [state_of fst snd]. auto.
  - destruct (btnRecord_disabled (gifRecorder s));
      [cbn [fst snd]; split; [lia|auto]|].
    cbn [fst snd set_recorder stripRenderer gifRecorder page].
    split; [exact Ha|]. split; [exact Hb|].
    intros H0. destruct (Hc H0) as (Hm & Hp & Hf & He).
    split; [exact Hm|]. split; [exact Hp|].
    unfold onclick, stop, generateGif. cbn [fst snd].
    destruct (active (gifRecorder s));
      cbn [set_btnText set_active set_disabled frames]; rewrite ?Hf;
      cbn; auto.
  - cbn [fst snd set_recorder stripRenderer gifRecorder page].
    split; [exact Ha|]. split; [exact Hb|].
    intros H0. destruct (Hc H0) as (Hm & Hp & Hf & He).
    split; [exact Hm|]. split; [exact Hp|].
    destruct e; cbn; auto.
Qed.

Lemma run_wired (evs : list Event) :
  forall sn, wired sn -> wired (App.run evs sn).
Proof.
  induction evs as [|ev evs IH]; intros sn H; [exact H|].
  cbn [App.run]. apply IH. now apply step_wired.
Qed.

(** X15: whatever the browser delivers to the page after [init], in
    any order: the polling timer is installed at most once; and as long
    as it is not installed the renderer has neither layout nor colours,
    an animation frame draws nothing and captures nothing, the recorder
    holds no frame and no encoder has been created. *)
Theorem nothing_drawn_before_polling (evs : list Event)
  (animation : Canvas) (btnText progress liveText : string) :
  let sn := App.run evs (init animation btnText progress liveText) in
  (intervals (snd sn) <= 1)%nat
  /\ (intervals (snd sn) = 0%nat ->
      map (stripRenderer (fst sn)) = None
      /\ pixels (stripRenderer (fst sn)) = None
      /\ frames (gifRecorder (fst sn)) = []
      /\ encoders (page (fst sn)) = []
      /\ forall now,
           stripRenderer (loop now (fst sn)) = stripRenderer (fst sn)
           /\ gifRecorder (loop now (fst sn)) = gifRecorder (fst sn)).
Proof.
  intros sn.
  pose proof (run_wired evs _ (init_wired animation btnText progress liveText))
    as (Ha & Hb & Hc).
  fold sn in Ha, Hb, Hc.
  split; [lia|]. intros H0. destruct (Hc H0) as (Hm & Hp & Hf & He).
  repeat (split; [assumption|]).
  intros now. unfold loop.
  cbn [stripRenderer gifRecorder page live animation_requests].
  unfold Env in *.
  rewrite (render_noop_without_data (Z * Recorder) (stripRenderer (fst sn))
             (now, gifRecorder (fst sn))) by (left; exact Hm).
  split; reflexivity.
Qed.

Lemma nothing_drawn_before_polling_witness :
  let sn := App.run [ImageLoaded 20 20; AnimationFrame 3; RecordClick;
                     AnimationFrame 20]
              (init createCanvas "Record" "" "") in
  frames (gifRecorder (fst sn)) = []
  /\ active (gifRecorder (fst sn)) = true.
Proof.
  intros sn.
  destruct (nothing_drawn_before_polling
              [ImageLoaded 20 20; AnimationFrame 3; RecordClick;
               AnimationFrame 20] createCanvas "Record" "" "") as [_ H].
  destruct (H eq_refl) as (_ & _ & Hf & _).
  split; [exact Hf | reflexivity].
Defined.

Lemma run_app (evs1 evs2 : list Event) :
  forall sn, App.run (evs1 ++ evs2) sn = App.run evs2 (App.run evs1 sn).
Proof.
  induction evs1 as [|ev evs1 IH]; intros sn; [reflexivity|].
  cbn. apply IH.
Qed.

Lemma net_before_map_response (evs : list Event) :
  forallb (fun ev => negb (is_map_response ev)) evs = true ->
  forall sn, intervals (snd sn) = 0%nat ->
    snd (App.run evs sn) = snd sn.
Proof.
  induction evs as [|ev evs IH]; intros Hall sn H0; [reflexivity|].
  cbn [forallb] in Hall. apply andb_true_iff in Hall. destruct Hall as [Hev Hall].
  cbn [App.run].
  assert (Hn : snd (step ev sn) = snd sn).
  { destruct sn as [s n]. cbn [snd] in H0.
    destruct ev as [w h|x|x|now| |e]; cbn [step]; try reflexivity.
    - discriminate.
    - rewrite H0. reflexivity.
    - destruct (animation_requests s); reflexivity.
    - destruct (btnRecord_disabled (gifRecorder s)); reflexivity. }
  rewrite IH by (assumption || (rewrite Hn; assumption)).
  exact Hn.
Qed.

Lemma net_stuck (evs : list Event) :
  forall sn, intervals (snd sn) = 0%nat -> map_requests (snd sn) = 0%nat ->
    snd (App.run evs sn) = snd sn.
Proof.
  induction evs as [|ev evs IH]; intros sn H0 H1; [reflexivity|].
  cbn [App.run].
  assert (Hn : snd (step ev sn) = snd sn).
  { destruct sn as [s n]. cbn [snd] in H0, H1.
    destruct ev as [w h|x|x|now| |e]; cbn [step]; try reflexivity.
    - rewrite H1. reflexivity.
    - rewrite H0. reflexivity.
    - destruct (animation_requests s); reflexivity.
    - destruct (btnRecord_disabled (gifRecorder s)); reflexivity. }
  rewrite IH by (rewrite Hn; assumption).
  exact Hn.
Qed.

(** X16: the layout is requested once and a failure is final.  When
    the answer to the map request has a status other than 200, or a body
    that does not parse, one line is written to the console and that is
    all: whatever is delivered afterwards, the polling timer is never
    installed and no request is pending, so no colours ever arrive, no
    frame is drawn or captured, and no encoder is created. *)
Theorem failed_map_request_is_final (pre post : list Event)
  (x : Response (option (list Point)))
  (animation : Canvas) (btnText progress liveText : string)
  (Hpre : forallb (fun ev => negb (is_map_response ev)) pre = true)
  (Hfail : failed x) :
  let sn := App.run (pre ++ MapResponse x :: post)
              (init animation btnText progress liveText) in
  intervals (snd sn) = 0%nat
  /\ map_requests (snd sn) = 0%nat
  /\ console (snd sn)
     = [if status x =? 200 then ErrorParsingJson else MapRequestFailed]
  /\ map (stripRenderer (fst sn)) = None
  /\ pixels (stripRenderer (fst sn)) = None
  /\ frames (gifRecorder (fst sn)) = []
  /\ encoders (page (fst sn)) = [].
Proof.
  intros sn.
  set (i0 := init animation btnText progress liveText) in *.
  assert (Hn1 : snd (App.run pre i0) = snd i0)
    by (apply net_before_map_response; [exact Hpre|reflexivity]).
  assert (Hn2 : snd (step (MapResponse x) (App.run pre i0))
                = {| console :=
                       [if status x =? 200 then ErrorParsingJson
                        else MapRequestFailed];
                     intervals := 0; map_requests := 0 |}).
  { destruct (App.run pre i0) as [s n]. cbn [snd] in Hn1. subst n.
    cbn [step i0 init snd start_provider map_requests intervals console].
    unfold map_onload. cbn [fst snd].
    destruct Hfail as [Hs|Hp].
    - replace (status x =? 200) with false
        by (symmetry; now apply Z.eqb_neq).
      reflexivity.
    - rewrite Hp. destruct (status x =? 200); reflexivity. }
  assert (Hn3 : snd sn
                = {| console :=
                       [if status x =? 200 then ErrorParsingJson
                        else MapRequestFailed];
                     intervals := 0; map_requests := 0 |}).
  { subst sn. rewrite run_app. cbn [App.run].
    rewrite net_stuck; rewrite Hn2; reflexivity. }
  pose proof (run_wired (pre ++ MapResponse x :: post) _
                (init_wired animation btnText progress liveText))
    as (_ & _ & Hc).
  fold i0 in Hc. fold sn in Hc.
  rewrite Hn3 in *. cbn [intervals map_requests console].
  destruct (Hc eq_refl) as (Hm & Hp & Hf & He).
  repeat split; assumption.
Qed.

Lemma failed_map_request_is_final_witness :
  let sn := App.run ([ImageLoaded 20 20; AnimationFrame 1]
                     ++ MapResponse {| status := 404; parsed := None |}
                        :: [DataResponse
                              {| status := 200;
                                 parsed := Some {| d_pixels := Some [black];
                                                   last_client := None;
                                                   data_updates := 1 |} |};
                            AnimationFrame 2])
              (init createCanvas "Record" "" "") in
  console (snd sn) = [MapRequestFailed]
  /\ pixels (stripRenderer (fst sn)) = None.
Proof.
  intros sn.
  assert (Hfail : failed {| status := 404;
                            parsed := @None (option (list Point)) |})
    by (left; discriminate).
  destruct (failed_map_request_is_final
              [ImageLoaded 20 20; AnimationFrame 1]
              [DataResponse
                 {| status := 200;
                    parsed := Some {| d_pixels := Some [black];
                                      last_client := None;
                                      data_updates := 1 |} |};
               AnimationFrame 2]
              {| status := 404; parsed := None |}
              createCanvas "Record" "" "" eq_refl Hfail)
    as (_ & _ & Hcon & _ & Hp & _).
  split; [exact Hcon | exact Hp].
Defined.

Lemma resizeCanvas_clears_canvas (W : Type) (r : Renderer W)
  (v0 : Point) (rest : list Point) (t : Context) :
  map r = Some (v0 :: rest) -> tintCtx r = Some t ->
  content (target (ctx (resizeCanvas r))) = [].
Proof.
  intros Hm Ht. unfold resizeCanvas. rewrite Hm, Ht.
  destruct (bbox v0 rest) as [[[a b] c] d].
  destruct (ltb (sub (Fin d) (Fin c)) (sub (Fin b) (Fin a))); reflexivity.
Qed.

Lemma viewing_ready (animation : Canvas) (w h : Z)
  (v0 : Point) (rest : list Point) :
  map (viewing animation w h (v0 :: rest)) = Some (v0 :: rest)
  /\ tintCtx (viewing animation w h (v0 :: rest)) <> None
  /\ renderCallbacks (viewing animation w h (v0 :: rest))
     = [capture_callback]
  /\ content (target (ctx (viewing animation w h (v0 :: rest)))) = [].
Proof.
  unfold viewing, setMap.
  set (r1 := {| ctx := _; image_width := _; image_height := _;
                tintCtx := _; renderCallbacks := _; pixels := _;
                map := Some (v0 :: rest); scaling := _; xOffset := _;
                yOffset := _ |}).
  destruct (resizeCanvas_keeps_inputs _ r1) as (Hm & Ht & _ & _ & Hc & _).
  assert (Ht1 : tintCtx r1
                = Some (set_height
                          (set_width (getContext createCanvas) (of_Z w))
                          (of_Z h))).
  { subst r1. cbn [tintCtx]. unfold onload.
    set (r2 := set_tintCtx _ _).
    destruct (resizeCanvas_keeps_inputs _ r2) as (_ & Ht2 & _).
    rewrite Ht2. reflexivity. }
  assert (Hc1 : renderCallbacks r1 = [capture_callback]).
  { subst r1. cbn [renderCallbacks].
    destruct (onload_keeps_data _
                (addRenderCallback capture_callback
                   (StripRenderer.new Env animation)) w h) as (_ & _ & Hcb).
    rewrite Hcb. reflexivity. }
  split; [rewrite Hm; reflexivity|].
  split; [rewrite Ht, Ht1; discriminate|].
  split; [rewrite Hc; exact Hc1|].
  now apply (resizeCanvas_clears_canvas _ r1 v0 rest _ eq_refl Ht1).
Qed.

Lemma background_setPixels (W : Type) ps (r : Renderer W) :
  background (setPixels ps r) = background r.
Proof. reflexivity. Qed.

Lemma sprite_at_setPixels (W : Type) ps (r : Renderer W) pv :
  sprite_at (setPixels ps r) pv = sprite_at r pv.
Proof. reflexivity. Qed.

(** X17: the data path of the page.  After [init], once the sprite
    has loaded and the map request has been answered with a layout of at
    least one entry (in either order), the timer is installed; when a
    data response then brings colours, no more of them than layout
    entries, the status line shows the client and the update count of
    that response, and the next animation frame shows the background
    and one tinted sprite per colour, placed by the viewport computed
    from the layout.  Nothing is written to the console and the idle
    recorder is left alone. *)
Theorem served_data_is_drawn (animation : Canvas)
  (btnText progress liveText : string) (w h now : Z)
  (v0 : Point) (rest : list Point) (data : Data) (ps : list Pixel)
  (Hps : d_pixels data = Some ps)
  (Hlen : (List.length ps <= List.length (v0 :: rest))%nat) :
  let m := v0 :: rest in
  let start := init animation btnText progress liveText in
  let sn := App.run [ImageLoaded w h; MapResponse (ok (Some m));
                     DataResponse (ok data); AnimationFrame now] start in
  App.run [MapResponse (ok (Some m)); ImageLoaded w h;
           DataResponse (ok data); AnimationFrame now] start
  = sn
  /\ console (snd sn) = []
  /\ intervals (snd sn) = 1%nat
  /\ live (fst sn) = setData data
  /\ content (target (ctx (stripRenderer (fst sn))))
     = background (viewing animation w h m)
       :: List.map (sprite_at (viewing animation w h m)) (combine ps m)
  /\ gifRecorder (fst sn) = GifRecorder.new btnText progress false
  /\ animation_requests (fst sn) = 1%nat.
Proof.
  intros m start sn.
  destruct (viewing_ready animation w h v0 rest) as (Hm & Ht & Hcb & Hc).
  fold m in Hm, Ht, Hcb, Hc.
  destruct (tintCtx (viewing animation w h m)) as [t|] eqn:Et; [|congruence].
  set (rv := setPixels (Some ps) (viewing animation w h m)).
  assert (Hsn : sn
    = (loop now
         {| stripRenderer := rv;
            gifRecorder := GifRecorder.new btnText progress false;
            page := blank_page;
            live := setData data;
            animation_requests := 0 |},
       {| console := []; intervals := 1; map_requests := 0 |})).
  { subst sn start rv. unfold App.run, step, init, start_provider.
    cbn [map_requests intervals console animation_requests
         stripRenderer gifRecorder page live set_stripRenderer].
    unfold map_onload, data_onload, ok.
    cbn [status parsed Z.eqb Pos.eqb fst snd provider mapCallbacks
         pixelDataCallbacks addPixelDataCallback addMapCallback new_provider
         app call_all on_map on_data set_stripRenderer set_live
         stripRenderer gifRecorder page live animation_requests
         console intervals map_requests].
    rewrite Hps. reflexivity. }
  split.
  - rewrite Hsn.
    unfold App.run, step, start, init, start_provider.
    cbn [map_requests intervals console animation_requests
         stripRenderer gifRecorder page live set_stripRenderer].
    unfold map_onload, data_onload, ok.
    cbn [status parsed Z.eqb Pos.eqb fst snd provider mapCallbacks
         pixelDataCallbacks addPixelDataCallback addMapCallback new_provider
         app call_all on_map on_data set_stripRenderer set_live
         stripRenderer gifRecorder page live animation_requests
         console intervals map_requests].
    rewrite Hps. subst m.
    rewrite onload_setMap_commute. reflexivity.
  - rewrite Hsn. cbn [fst snd console intervals].
    split; [reflexivity|]. split; [reflexivity|].
    unfold loop.
    cbn [stripRenderer gifRecorder page live animation_requests].
    unfold Env in *.
    destruct (render_spec (Z * Recorder)%type rv
                (now, GifRecorder.new btnText progress false) m ps t)
      as (r' & _ & Hcr & Hr); [exact Hm | reflexivity | exact Et |].
    rewrite Hr.
    replace (List.length ps <=? List.length m)%nat with true
      by (symmetry; now apply Nat.leb_le).
    cbn [state_of fst snd].
    split; [reflexivity|]. split.
    + rewrite Hcr.
      assert (Hc' : content (target (ctx rv)) = []) by exact Hc.
      rewrite Hc'. subst rv. rewrite background_setPixels.
      rewrite (map_ext _ _ (sprite_at_setPixels _ (Some ps)
                              (viewing animation w h m))).
      generalize (viewing animation w h m). intros V. reflexivity.
    + split; [|reflexivity].
      assert (Hcb' : renderCallbacks rv = [capture_callback]) by exact Hcb.
      rewrite Hcb'. reflexivity.
Qed.

Lemma served_data_is_drawn_witness :
  let sn := App.run [ImageLoaded 20 20; MapResponse (ok (Some triangle));
                     DataResponse
                       (ok {| d_pixels := Some [black; white];
                              last_client := Some ("127.0.0.1", 5000);
                              data_updates := 12 |});
                     AnimationFrame 0]
              (init createCanvas "Record" "" "") in
  live (fst sn) = "Client: 127.0.0.1:5000, Updates: 12"
  /\ List.length (content (target (ctx (stripRenderer (fst sn))))) = 3%nat.
Proof.
  intros sn.
  assert (Hlen : (List.length [black; white]
                  <= List.length ((0, 0)%Q :: [(10, 0); (0, 10)]%Q))%nat)
    by (cbn; lia).
  destruct (served_data_is_drawn createCanvas "Record" "" "" 20 20 0
              (0, 0)%Q [(10, 0); (0, 10)]%Q
              {| d_pixels := Some [black; white];
                 last_client := Some ("127.0.0.1", 5000);
                 data_updates := 12 |}
              [black; white] eq_refl Hlen)
    as (_ & _ & _ & Hlive & Hc & _).
  split.
  - exact Hlive.
  - apply (f_equal (@List.length DrawOp)) in Hc. exact Hc.
Defined.

End AppFacts.

(** * The viewport under a translation of the layout *)

Section TranslationFacts.
Import Dom StripRenderer Layout.






End TranslationFacts.
